(** * FOON search: a shallow embedding of [foon_parse_assign2.py]

    The development follows the Python module top-down: the text
    primitives the code relies on ([str.split], [str.strip], [str.lower],
    the two [re.sub] calls), the parser [load_foon] with its shared,
    mutable unit lists, and the read-only operations of
    [OptimizedFOONSearch] written in a small state-and-exception monad
    over the loaded object and the standard output; [foon_to_graph] of
    [graph_vis.py] and the availability report of [test_script.py] follow.
    The definitions come first, the properties after them. *)

From Stdlib Require Import ZArith Ascii String List Bool Lia PrimFloat.
From stdpp Require Import base option list gmap strings.

Open Scope string_scope.
Open Scope list_scope.

(** ** Text primitives

    Characters are code points below 256; the classifications are the
    ones CPython uses for [str] (Unicode) patterns and methods, restricted
    to that range.  Text with a code point from 256 on is not covered:
    there [str.lower] is no longer a map on characters (the lower case of
    U+0130 is two characters long). *)

Module Text.

Definition code (c : ascii) : nat := nat_of_ascii c.

Definition between (lo hi n : nat) : bool := (lo <=? n)%nat && (n <=? hi)%nat.

(** [str.isspace] on one character; also what [\s], [strip()] and
    [split()] use. *)
Definition isspace (c : ascii) : bool :=
  let n := code c in
  between 9 13 n || between 28 32 n || (n =? 133)%nat || (n =? 160)%nat.

(** [\w]: alphanumeric (letters, decimal digits, other digits and
    numerics) or the underscore. *)
Definition isword (c : ascii) : bool :=
  let n := code c in
  between 48 57 n || between 65 90 n || (n =? 95)%nat || between 97 122 n
  || (n =? 170)%nat || (n =? 178)%nat || (n =? 179)%nat || (n =? 181)%nat
  || (n =? 185)%nat || (n =? 186)%nat || between 188 190 n
  || between 192 214 n || between 216 246 n || between 248 255 n.

(** [str.lower] on one character. *)
Definition lower_char (c : ascii) : ascii :=
  let n := code c in
  if between 65 90 n || between 192 214 n || between 216 222 n
  then ascii_of_nat (n + 32) else c.

Definition chars := list ascii.

(** [re.sub(r'[^\w\s]', '', line)] *)
Definition remove_punctuation (cs : chars) : chars :=
  List.filter (fun c => isword c || isspace c) cs.

Fixpoint lstrip (cs : chars) : chars :=
  match cs with
  | c :: cs' => if isspace c then lstrip cs' else cs
  | [] => []
  end.

Definition rstrip (cs : chars) : chars := rev (lstrip (rev cs)).

(** [line.strip()] *)
Definition strip (cs : chars) : chars := rstrip (lstrip cs).

(** [line.lower()] *)
Definition lower (cs : chars) : chars := List.map lower_char cs.

(** [re.sub(r'\s+', ' ', line)]: every maximal run of whitespace becomes
    one space; [in_run] tells that the previous character was
    whitespace. *)
Fixpoint collapse (in_run : bool) (cs : chars) : chars :=
  match cs with
  | [] => []
  | c :: cs' =>
      if isspace c
      then (if in_run then collapse true cs' else " "%char :: collapse true cs')
      else c :: collapse false cs'
  end.

(** [line.split()]: the maximal runs of non-whitespace characters;
    [cur] is the token being read. *)
Fixpoint split_from (cur : chars) (cs : chars) : list chars :=
  match cs with
  | [] => match cur with [] => [] | _ => [cur] end
  | c :: cs' =>
      if isspace c
      then match cur with
           | [] => split_from [] cs'
           | _ => cur :: split_from [] cs'
           end
      else split_from (cur ++ [c]) cs'
  end.

Definition of_string : string -> chars := list_ascii_of_string.
Definition to_string : chars -> string := string_of_list_ascii.

Definition split (s : string) : list string :=
  List.map to_string (split_from [] (of_string s)).

(** [sep.join(parts)] *)
Fixpoint join (sep : string) (parts : list string) : string :=
  match parts with
  | [] => EmptyString
  | [p] => p
  | p :: ps => p ++ sep ++ join sep ps
  end.

(** [line.startswith(p)] *)
Definition startswith (line p : string) : bool := String.prefix p line.

(** [needle in hay] *)
Fixpoint contains (needle hay : string) : bool :=
  String.prefix needle hay ||
  match hay with
  | EmptyString => false
  | String _ hay' => contains needle hay'
  end.

End Text.

Import Text.

(** The text of one line as the parser stores it (lines 23-24 of the
    module): punctuation removed, stripped, lowercased, whitespace runs
    collapsed. *)
Definition normalize_chars (cs : chars) : chars :=
  collapse false (lower (strip (remove_punctuation cs))).

Definition normalize (line : string) : string :=
  to_string (normalize_chars (of_string line)).

(** The one-character string holding a backslash, which line 26
    compares the normalized line with. *)
Definition backslash : string := String (ascii_of_nat 92) EmptyString.

(** ** Exceptions and results *)

Inductive exn : Type :=
| IndexError
| ZeroDivisionError.

Inductive result (A : Type) : Type :=
| Ret (a : A)
| Raise (e : exn).
Arguments Ret {A} a.
Arguments Raise {A} e.

(** [xs[i]] for a non-negative literal index. *)
Definition subscript {A} (xs : list A) (i : nat) : result A :=
  match xs !! i with
  | Some x => Ret x
  | None => Raise IndexError
  end.

(** A functional unit: its lines, in order. *)
Definition Unit : Type := list string.

(** ** The parser, [load_foon]

    The model starts from [lines], the list that [file.readlines()]
    returned on lines 16-17; opening and decoding the file are not part
    of it.

    [current_unit] is a Python list that is appended to [units] and to the
    buckets of [unit_to_objects] by reference and keeps growing
    afterwards.  The model keeps the list objects in a store indexed by
    address; [current_unit = []] allocates a fresh address. *)

Module Parser.

Abbreviation addr := nat (only parsing).

Record state : Type := mkState {
  store : list Unit;
  units : list addr;
  unit_to_objects : gmap string (list addr);
  current_unit : addr
}.

Definition init : state :=
  {| store := [[]]; units := []; unit_to_objects := ∅; current_unit := 0 |}.

Definition deref (st : list Unit) (a : addr) : Unit := default [] (st !! a).

Definition is_delimiter (line : string) : bool :=
  bool_decide (line = backslash) || bool_decide (line = EmptyString).

(** [bucket.append(a)] after [if name not in d: d[name] = []]. *)
Definition bucket_append (name : string) (a : addr)
    (d : gmap string (list addr)) : gmap string (list addr) :=
  let d1 := match d !! name with None => <[name := []]> d | Some _ => d end in
  alter (fun b => b ++ [a]) name d1.

(** One iteration of the [for line in lines] loop. *)
Definition step (s : state) (raw : string) : result state :=
  let line := normalize raw in
  if is_delimiter line then
    let units' :=
      match deref (store s) (current_unit s) with
      | [] => units s
      | _ :: _ => units s ++ [current_unit s]
      end in
    Ret {| store := store s ++ [[]];
           units := units';
           unit_to_objects := unit_to_objects s;
           current_unit := length (store s) |}
  else
    let store' := alter (fun u => u ++ [line]) (current_unit s) (store s) in
    if startswith line "o" then
      match subscript (split line) 1 with
      | Raise e => Raise e
      | Ret object_name =>
          Ret {| store := store';
                 units := units s;
                 unit_to_objects :=
                   bucket_append object_name (current_unit s) (unit_to_objects s);
                 current_unit := current_unit s |}
      end
    else
      Ret {| store := store';
             units := units s;
             unit_to_objects := unit_to_objects s;
             current_unit := current_unit s |}.

Fixpoint run (s : state) (lines : list string) : result state :=
  match lines with
  | [] => Ret s
  | raw :: rest =>
      match step s raw with
      | Ret s' => run s' rest
      | Raise e => Raise e
      end
  end.

(** What the caller receives: the two returned containers, read through
    the store as it is when [load_foon] returns. *)
Definition load_foon (lines : list string)
    : result (list Unit * gmap string (list Unit)) :=
  match run init lines with
  | Ret s => Ret (deref (store s) <$> units s,
                  (fun b : list addr => deref (store s) <$> b) <$> unit_to_objects s)
  | Raise e => Raise e
  end.

End Parser.

(** ** The loaded object and the effects of its methods *)

(** What [available_in_kitchen] returns: [True] or the list of missing
    names. *)
Inductive status : Type :=
| PyTrue
| PyList (missing_objects : list string).

(** Truth value of a status in a condition ([if x:], [x and y]). *)
Definition truthy (v : status) : bool :=
  match v with
  | PyTrue => true
  | PyList [] => false
  | PyList (_ :: _) => true
  end.

(** [v is True] *)
Definition is_True (v : status) : bool :=
  match v with PyTrue => true | PyList _ => false end.

(** [v == True]: a list never equals a boolean. *)
Definition eq_True (v : status) : bool :=
  match v with PyTrue => true | PyList _ => false end.

(** The attributes of an [OptimizedFOONSearch] instance. *)
Record Self : Type := mkSelf {
  graph : list Unit;
  unit_to_objects : gmap string (list Unit);
  kitchen : gset string;
  motion_data : gmap string float
}.

(** [load_kitchen]: one entry per line of the file, stripped and
    lower-cased. *)
Definition load_kitchen (lines : list string) : gset string :=
  foldl (fun kitchen line => kitchen ∪ {[ to_string (lower (strip (of_string line))) ]})
        ∅ lines.

(** [load_motion]; [float(parts[1])] is Python's own parser, taken as the
    parameter [py_float] ([None] stands for [ValueError]). *)
Definition load_motion (py_float : string -> option float) (lines : list string)
    : gmap string float :=
  foldl (fun motion_dict line =>
           let parts := split (to_string (strip (of_string line))) in
           if (2 <=? length parts)%nat then
             match parts !! 0, parts !! 1 with
             | Some motion, Some text =>
                 match py_float text with
                 | Some success_rate => <[motion := success_rate]> motion_dict
                 | None => motion_dict
                 end
             | _, _ => motion_dict
             end
           else motion_dict)
        ∅ lines.

(** [__init__], from the lines of the three files. *)
Definition __init__ (py_float : string -> option float)
    (foon_file kitchen_file motion_file : list string) : result Self :=
  match Parser.load_foon foon_file with
  | Ret (graph, unit_to_objects) =>
      Ret {| graph := graph;
             unit_to_objects := unit_to_objects;
             kitchen := load_kitchen kitchen_file;
             motion_data := load_motion py_float motion_file |}
  | Raise e => Raise e
  end.

(** The lines written by [print], one constructor per call site. *)
Inductive Msg : Type :=
| SearchingWithDepthLimit (depth : Z)
| UnableToLocateGoal (max_depth : Z)
| GoalObjectNotFound (goal_object : string)
| MatchingUnitFound (depth : Z) (u : Unit)
| MissingFromKitchen (kitchen_status : status)
| UnitDoesNotMatch (u : Unit)
| MatchingUnitFoundAStar (u : Unit)
| AStarNoTaskTree.

Record World : Type := mkWorld {
  self : Self;
  stdout : list Msg
}.

(** Computations that read and may write the world and may raise. *)
Definition M (A : Type) : Type := World -> result A * World.

Definition ret {A} (a : A) : M A := fun w => (Ret a, w).

Definition raise {A} (e : exn) : M A := fun w => (Raise e, w).

Definition bind {A B} (m : M A) (k : A -> M B) : M B :=
  fun w =>
    match m w with
    | (Ret a, w') => k a w'
    | (Raise e, w') => (Raise e, w')
    end.

Declare Scope py_scope.
Delimit Scope py_scope with py.
Notation "x <- m ;; k" := (bind m (fun x => k))
  (at level 100, m at next level, right associativity) : py_scope.
Notation "m ;;; k" := (bind m (fun _ => k))
  (at level 100, right associativity) : py_scope.
Open Scope py_scope.

(** Reading an attribute of [self]. *)
Definition attr {A} (f : Self -> A) : M A := fun w => (Ret (f (self w)), w).

Definition print (m : Msg) : M () :=
  fun w => (Ret tt, {| self := self w; stdout := stdout w ++ [m] |}).

Definition lift {A} (r : result A) : M A := fun w => (r, w).

(** [for x in xs: body], where the body either falls through ([None]) or
    leaves the enclosing function with [return v] ([Some v]). *)
Fixpoint for_each {X R} (xs : list X) (body : X -> M (option R)) : M (option R) :=
  match xs with
  | [] => ret None
  | x :: xs' =>
      r <- body x ;;
      match r with
      | Some v => ret (Some v)
      | None => for_each xs' body
      end
  end.

(** A loop that only updates a local variable. *)
Fixpoint for_fold {X S} (xs : list X) (body : S -> X -> M S) (s : S) : M S :=
  match xs with
  | [] => ret s
  | x :: xs' => s' <- body s x ;; for_fold xs' body s'
  end.

Definition eval {A} (m : M A) (w : World) : result A := fst (m w).
Definition exec {A} (m : M A) (w : World) : World := snd (m w).

(** ** The methods of [OptimizedFOONSearch] *)

(** Body of the loop of [available_in_kitchen]. *)
Definition available_step (missing_objects : list string) (line : string)
    : M (list string) :=
  if startswith line "o" then
    object_name <- lift (subscript (split line) 1) ;;
    k <- attr kitchen ;;
    if bool_decide (object_name ∈ k) then ret missing_objects
    else ret (missing_objects ++ [object_name])
  else ret missing_objects.

Definition available_in_kitchen (u : Unit) : M status :=
  missing_objects <- for_fold u available_step [] ;;
  ret (match missing_objects with
       | [] => PyTrue
       | _ :: _ => PyList missing_objects
       end).

(** Body of the loop of [unit_matches_goal]; the state is the pair
    [(object_match, state_match)]. *)
Definition matches_step (goal_object goal_state : string)
    (flags : bool * bool) (line : string) : M (bool * bool) :=
  let '(object_match, state_match) := flags in
  let parts := split line in
  if startswith line "o" then
    object_name <- lift (subscript parts 1) ;;
    if bool_decide (goal_object = object_name)
    then ret (true, state_match)
    else ret (object_match, state_match)
  else if startswith line "s" then
    let state_value := join " " (tail parts) in
    if contains goal_state state_value || bool_decide (goal_state = state_value)
    then ret (object_match, true)
    else ret (object_match, state_match)
  else ret (object_match, state_match).

Definition unit_matches_goal (u : Unit) (goal_object goal_state : string) : M bool :=
  flags <- for_fold u (matches_step goal_object goal_state) (false, false) ;;
  ret (fst flags && snd flags).

(** Body of the loop of [depth_limited_search]. *)
Definition dls_visit (goal_object goal_state : string) (depth : Z) (u : Unit)
    : M (option Unit) :=
  matches <- unit_matches_goal u goal_object goal_state ;;
  if matches then
    kitchen_status <- available_in_kitchen u ;;
    if is_True kitchen_status then
      print (MatchingUnitFound depth u) ;;; ret (Some u)
    else
      print (MissingFromKitchen kitchen_status) ;;; ret None
  else
    print (UnitDoesNotMatch u) ;;; ret None.

Definition depth_limited_search (goal_object goal_state : string) (depth : Z)
    : M (option Unit) :=
  if (depth =? 0)%Z then ret None
  else
    index <- attr unit_to_objects ;;
    match index !! goal_object with
    | None => print (GoalObjectNotFound goal_object) ;;; ret None
    | Some bucket => for_each bucket (dls_visit goal_object goal_state depth)
    end.

(** [range(n)] *)
Definition range (n : Z) : list Z := Z.of_nat <$> seq 0 (Z.to_nat n).

(** Truth value of a search result: [None] and the empty list are
    false. *)
Definition truthy_result (r : option Unit) : bool :=
  match r with
  | None => false
  | Some [] => false
  | Some (_ :: _) => true
  end.

(** Body of the loop of [iterative_deepening_search]. *)
Definition ids_try (goal_object goal_state : string) (depth : Z)
    : M (option (option Unit)) :=
  print (SearchingWithDepthLimit depth) ;;;
  result <- depth_limited_search goal_object goal_state depth ;;
  if truthy_result result then ret (Some result) else ret None.

Definition iterative_deepening_search (goal_object goal_state : string)
    (max_depth : Z) : M (option Unit) :=
  r <- for_each (range max_depth) (ids_try goal_object goal_state) ;;
  match r with
  | Some result => ret result
  | None => print (UnableToLocateGoal max_depth) ;;; ret None
  end.

(** The value of the keyword argument when the caller omits it. *)
Definition default_max_depth : Z := 40.

(** *** The open list of [a_star_search]

    A node is the tuple [(cost, object, state)].  The queue is kept in
    priority order: [heappush] inserts by the tuple order and [heappop]
    removes the least node. *)

Definition Node : Type := float * string * string.

Definition string_ltb (a b : string) : bool :=
  match String.compare a b with Lt => true | _ => false end.

(** Tuple comparison: the first components that differ decide. *)
Definition node_ltb (a b : Node) : bool :=
  let '(ca, oa, sa) := a in
  let '(cb, ob, sb) := b in
  if negb (PrimFloat.eqb ca cb) then PrimFloat.ltb ca cb
  else if negb (String.eqb oa ob) then string_ltb oa ob
  else string_ltb sa sb.

Fixpoint heappush (open_list : list Node) (x : Node) : list Node :=
  match open_list with
  | [] => [x]
  | y :: rest => if node_ltb x y then x :: y :: rest else y :: heappush rest x
  end.

(** [a / b] on floats. *)
Definition true_div (a b : float) : result float :=
  if PrimFloat.eqb b 0 then Raise ZeroDivisionError else Ret (a / b)%float.

(** The condition of the [if] inside the loop:
    [unit_matches_goal(...) and available_in_kitchen(unit)], taken as a
    truth value.  The right operand is evaluated only when the left one is
    true. *)
Definition a_star_condition (u : Unit) (current_object current_state : string)
    : M bool :=
  matches <- unit_matches_goal u current_object current_state ;;
  if matches then
    kitchen_status <- available_in_kitchen u ;;
    ret (truthy kitchen_status)
  else ret false.

(** Body of the [for unit in ...] loop of [a_star_search]. *)
Definition a_star_visit (current_cost : float) (current_object current_state : string)
    (u : Unit) : M (option Unit) :=
  accept <- a_star_condition u current_object current_state ;;
  if accept then
    first_line <- lift (subscript u 0) ;;
    motion <- lift (subscript (split first_line) 1) ;;
    table <- attr motion_data ;;
    let success_rate := default 1%float (table !! motion) in
    quotient <- lift (true_div 1 success_rate) ;;
    let new_cost := (current_cost + quotient)%float in
    print (MatchingUnitFoundAStar u) ;;; ret (Some u)
  else ret None.

(** The [while open_list] loop.  Nothing is pushed inside the loop, so the
    queue only shrinks and the recursion is on the queue itself. *)
Fixpoint a_star_loop (open_list : list Node) (closed_list : gset (string * string))
    : M (option Unit) :=
  match open_list with
  | [] => print AStarNoTaskTree ;;; ret None
  | (current_cost, current_object, current_state) :: open_list' =>
      if bool_decide ((current_object, current_state) ∈ closed_list)
      then a_star_loop open_list' closed_list
      else
        let closed_list' := closed_list ∪ {[ (current_object, current_state) ]} in
        index <- attr unit_to_objects ;;
        match index !! current_object with
        | None => a_star_loop open_list' closed_list'
        | Some bucket =>
            r <- for_each bucket
                   (a_star_visit current_cost current_object current_state) ;;
            match r with
            | Some u => ret (Some u)
            | None => a_star_loop open_list' closed_list'
            end
        end
  end.

Definition a_star_search (goal_object goal_state : string) : M (option Unit) :=
  let open_list := [] in
  let closed_list : gset (string * string) := ∅ in
  let start_node : Node := (0%float, goal_object, goal_state) in
  let open_list := heappush open_list start_node in
  a_star_loop open_list closed_list.

(** *** The availability report of [test_script.py]

    [run_available_units_check] keeps the units whose status compares
    equal to [True]. *)
Definition usable_condition (functional_unit : Unit) : M bool :=
  st <- available_in_kitchen functional_unit ;;
  ret (eq_True st).

Definition usable_step (usable_units : list Unit) (functional_unit : Unit)
    : M (list Unit) :=
  usable <- usable_condition functional_unit ;;
  if usable then ret (usable_units ++ [functional_unit])
  else ret usable_units.

Definition run_available_units_check : M (list Unit) :=
  g <- attr graph ;;
  for_fold g usable_step [].

(** ** Specification vocabulary *)

(** The name carried by an object line: its second token. *)
Definition object_name (line : string) : option string := split line !! 1.

(** The text of a state line after its tag, tokens joined by one space. *)
Definition state_value (line : string) : string := join " " (tail (split line)).

(** A line tagged [o] carries a name. *)
Definition line_ok (line : string) : bool :=
  if startswith line "o" then bool_decide (is_Some (object_name line)) else true.

(** Every line of the unit tagged [o] carries a name. *)
Definition well_formed (u : Unit) : bool := forallb line_ok u.

(** The names of the object lines of a unit, in line order. *)
Definition object_names (u : Unit) : list string :=
  omap (fun line => if startswith line "o" then object_name line else None) u.

(** The object names of a unit that the kitchen lacks, in line order. *)
Definition missing (k : gset string) (u : Unit) : list string :=
  filter (fun n => n ∉ k) (object_names u).

Definition names_object (goal_object : string) (line : string) : bool :=
  startswith line "o" && bool_decide (object_name line = Some goal_object).

Definition shows_state (goal_state : string) (line : string) : bool :=
  startswith line "s" && contains goal_state (state_value line).

(** ** [available_in_kitchen] and [unit_matches_goal] as functions of the
    loaded object *)

Definition status_of (missing_objects : list string) : status :=
  match missing_objects with
  | [] => PyTrue
  | _ :: _ => PyList missing_objects
  end.

(** A loop whose body leaves the world alone is a fold over results. *)
Fixpoint fold_result {X S} (f : S -> X -> result S) (xs : list X) (s : S) : result S :=
  match xs with
  | [] => Ret s
  | x :: xs' =>
      match f s x with
      | Ret s' => fold_result f xs' s'
      | Raise e => Raise e
      end
  end.

Definition available_step_result (k : gset string) (missing_objects : list string)
    (line : string) : result (list string) :=
  if startswith line "o" then
    match object_name line with
    | Some n => Ret (if bool_decide (n ∈ k) then missing_objects
                     else missing_objects ++ [n])
    | None => Raise IndexError
    end
  else Ret missing_objects.

Definition matches_step_result (goal_object goal_state : string)
    (flags : bool * bool) (line : string) : result (bool * bool) :=
  if startswith line "o" then
    match object_name line with
    | Some n => Ret (fst flags || bool_decide (goal_object = n), snd flags)
    | None => Raise IndexError
    end
  else Ret (fst flags, snd flags || shows_state goal_state line).

(** ** Effects that only read the loaded object

    [computes m f]: the outcome of [m] is the function [f] of the loaded
    object alone, and [m] hands the loaded object on as it found it.
    [emits P m]: [m] only appends to the output, and every line it
    appends satisfies [P]. *)

Definition computes {A} (m : M A) (f : Self -> result A) : Prop :=
  forall w, eval m w = f (self w) /\ self (exec m w) = self w.

Definition emits (P : Msg -> Prop) {A} (m : M A) : Prop :=
  forall w, exists out, stdout (exec m w) = stdout w ++ out /\ Forall P out.

Definition then_result {A B} (r : result A) (k : A -> result B) : result B :=
  match r with
  | Ret a => k a
  | Raise e => Raise e
  end.

(** The outcome of a [for] loop with early [return], as a function of the
    outcomes of its body. *)
Fixpoint first_result {X R} (f : X -> result (option R)) (xs : list X)
    : result (option R) :=
  match xs with
  | [] => Ret None
  | x :: xs' =>
      match f x with
      | Ret (Some v) => Ret (Some v)
      | Ret None => first_result f xs'
      | Raise e => Raise e
      end
  end.

(** The two helpers, as functions of the loaded object. *)
Definition available_result (u : Unit) (s : Self) : result status :=
  if well_formed u then Ret (status_of (missing (kitchen s) u)) else Raise IndexError.

Definition matches_result (u : Unit) (g st : string) (_ : Self) : result bool :=
  if well_formed u
  then Ret (existsb (names_object g) u && existsb (shows_state st) u)
  else Raise IndexError.

(** ** The searches as functions of the loaded object *)

Definition dls_visit_result (g st : string) (u : Unit) (s : Self)
    : result (option Unit) :=
  then_result (matches_result u g st s) (fun matches =>
    if matches then
      then_result (available_result u s) (fun kitchen_status =>
        Ret (if is_True kitchen_status then Some u else None))
    else Ret None).

Definition dls_result (g st : string) (s : Self) : result (option Unit) :=
  match unit_to_objects s !! g with
  | None => Ret None
  | Some bucket => first_result (fun u => dls_visit_result g st u s) bucket
  end.

Definition ids_try_result (g st : string) (d : Z) (s : Self)
    : result (option (option Unit)) :=
  then_result (if (d =? 0)%Z then Ret None else dls_result g st s) (fun result =>
    Ret (if truthy_result result then Some result else None)).

Definition ids_result (g st : string) (max_depth : Z) (s : Self)
    : result (option Unit) :=
  then_result (first_result (fun d => ids_try_result g st d s) (range max_depth))
    (fun r => Ret (match r with Some result => result | None => None end)).

(** *** What the searches print *)

(** The depth announced by a line of the [for depth in range(...)] loop. *)
Definition announced_depth (m : Msg) : option Z :=
  match m with
  | SearchingWithDepthLimit d => Some d
  | _ => None
  end.

(** The depths a run of [iterative_deepening_search] went through, read
    off its output. *)
Definition depths_tried (out : list Msg) : list Z := omap announced_depth out.

Definition not_announcement (m : Msg) : Prop := announced_depth m = None.

(** *** [a_star_search] as a function of the loaded object *)

Definition a_star_visit_result (o st : string) (u : Unit) (s : Self)
    : result (option Unit) :=
  then_result (matches_result u o st s) (fun accept =>
    if accept then
      then_result (subscript u 0) (fun first_line =>
      then_result (subscript (split first_line) 1) (fun motion =>
      then_result (true_div 1 (default 1%float (motion_data s !! motion))) (fun _ =>
      Ret (Some u))))
    else Ret None).

Definition a_star_result (g st : string) (s : Self) : result (option Unit) :=
  match unit_to_objects s !! g with
  | None => Ret None
  | Some bucket => first_result (fun u => a_star_visit_result g st u s) bucket
  end.

(** ** A small FOON, used to run the code on concrete inputs *)

Module Recipe.

(** Two ways to get chopped onion: with a knife, or by hand. *)
Definition lines : list string :=
  [ "//";
    "O onion 1"; "S whole"; "O knife 0"; "S clean"; "M chop";
    "O onion 1"; "S chopped";
    "//";
    "O onion 1"; "S whole"; "M tear";
    "O onion 1"; "S chopped";
    "//" ].

Definition with_knife : Unit :=
  ["o onion 1"; "s whole"; "o knife 0"; "s clean"; "m chop";
   "o onion 1"; "s chopped"].

Definition by_hand : Unit :=
  ["o onion 1"; "s whole"; "m tear"; "o onion 1"; "s chopped"].

Definition index : gmap string (list Unit) :=
  {[ "onion" := [with_knife; with_knife; by_hand; by_hand];
     "knife" := [with_knife] ]}.

(** The object loaded from [lines], a kitchen and a motion table, before
    anything is printed. *)
Definition world (k : gset string) (table : gmap string float) : World :=
  {| self := {| graph := [with_knife; by_hand];
                unit_to_objects := index;
                kitchen := k;
                motion_data := table |};
     stdout := [] |}.

End Recipe.

(** ** The parser *)

(** *** What the parser is expected to build *)

(** The maximal runs of consecutive non-delimiter lines; [cur] is the run
    being read. *)
Fixpoint groups_from (cur : Unit) (ls : list string) : list Unit :=
  match ls with
  | [] => match cur with [] => [] | _ :: _ => [cur] end
  | l :: rest =>
      if Parser.is_delimiter l
      then match cur with
           | [] => groups_from [] rest
           | _ :: _ => cur :: groups_from [] rest
           end
      else groups_from (cur ++ [l]) rest
  end.

Definition groups (ls : list string) : list Unit := groups_from [] ls.

(** Number of object lines of a unit that carry the given name. *)
Definition hits (name : string) (u : Unit) : nat :=
  length (List.filter (names_object name) u).

(** The bucket of a name: every unit, in order, once per object line of
    the unit that carries the name. *)
Fixpoint bucket_of (name : string) (us : list Unit) : list Unit :=
  match us with
  | [] => []
  | u :: rest => replicate (hits name u) u ++ bucket_of name rest
  end.

(** A dictionary holds a key only once something was appended under it. *)
Definition nonempty {X} (l : list X) : option (list X) :=
  match l with [] => None | _ :: _ => Some l end.

(** The input ends with a delimiter line (or is empty). *)
Definition closed_input (lines : list string) : Prop :=
  lines = [] \/ exists body last,
    lines = body ++ [last] /\ Parser.is_delimiter (normalize last) = true.

(** *** The store of list objects, by address *)

(** The list objects allocated while reading [ls], in allocation order:
    one per delimiter, plus the initial one; [cur] is the newest. *)
Fixpoint segs_from (cur : Unit) (ls : list string) : list Unit :=
  match ls with
  | [] => [cur]
  | l :: rest =>
      if Parser.is_delimiter l then cur :: segs_from [] rest
      else segs_from (cur ++ [l]) rest
  end.

Fixpoint drop_empty (segs : list Unit) : list Unit :=
  match segs with
  | [] => []
  | [] :: rest => drop_empty rest
  | (_ :: _) as u :: rest => u :: drop_empty rest
  end.

Fixpoint nonempty_addrs (base : nat) (segs : list Unit) : list nat :=
  match segs with
  | [] => []
  | [] :: rest => nonempty_addrs (S base) rest
  | (_ :: _) :: rest => base :: nonempty_addrs (S base) rest
  end.

Fixpoint addr_bucket (name : string) (base : nat) (segs : list Unit) : list nat :=
  match segs with
  | [] => []
  | u :: rest => replicate (hits name u) base ++ addr_bucket name (S base) rest
  end.

(** The state of the loop after the list objects [front ++ [cur]] have
    been allocated, [cur] being the current one. *)
Record Inv (front : list Unit) (cur : Unit) (s : Parser.state) : Prop := mkInv {
  inv_store : Parser.store s = front ++ [cur];
  inv_current : Parser.current_unit s = length front;
  inv_units : Parser.units s = nonempty_addrs 0 front;
  inv_index : forall name,
    Parser.unit_to_objects s !! name = nonempty (addr_bucket name 0 (front ++ [cur]))
}.

(** *** The text of a stored line *)

(** A character of a stored line: the space, or a word character. *)
Definition plain (c : ascii) : Prop := c = " "%char \/ isword c = true.

(** No two spaces in a row. *)
Fixpoint single_spaced (cs : chars) : bool :=
  match cs with
  | c1 :: ((c2 :: _) as rest) =>
      negb (Ascii.eqb c1 " " && Ascii.eqb c2 " ") && single_spaced rest
  | _ => true
  end.

(** No whitespace at the start, respectively at the end. *)
Definition starts_trimmed (cs : chars) : Prop :=
  match cs with [] => True | c :: _ => isspace c = false end.

Definition ends_trimmed (cs : chars) : Prop :=
  cs = [] \/ exists init c, cs = init ++ [c] /\ isspace c = false.

(** *** ASCII text

    On code points below 128 the word characters are the letters, the
    digits and the underscore, and [str.lower] changes [A] to [Z] only;
    what normalization leaves of a line is stated for such text. *)

(** A code point below 128. *)
Definition is_ascii (c : ascii) : bool := (code c <? 128)%nat.

Definition ascii_text (s : string) : Prop := forallb is_ascii (of_string s) = true.

(** The ASCII letters, the digits and the underscore; the remaining
    ASCII characters, whitespace apart, are the punctuation. *)
Definition ascii_word (c : ascii) : bool :=
  let n := code c in
  between 48 57 n || between 65 90 n || (n =? 95)%nat || between 97 122 n.

(** [A] to [Z] become [a] to [z]. *)
Definition ascii_lower (c : ascii) : ascii :=
  let n := code c in
  if between 65 90 n then ascii_of_nat (n + 32) else c.

(** A digit, the underscore or one of [a] to [z]. *)
Definition lower_word (c : ascii) : bool :=
  let n := code c in
  between 48 57 n || (n =? 95)%nat || between 97 122 n.

Definition lowered (token : string) : string :=
  to_string (List.map ascii_lower (of_string token)).

(** A line as the description of the parser has it: the punctuation
    characters removed, what is left cut into its whitespace-separated
    tokens, each token lower-cased, the tokens joined by single
    spaces. *)
Definition described_line (raw : string) : string :=
  join " " (lowered <$>
    split (to_string (List.filter (fun c => ascii_word c || isspace c) (of_string raw)))).

(** [join] with a space, on lists of characters. *)
Fixpoint join_chars (parts : list chars) : chars :=
  match parts with
  | [] => []
  | [p] => p
  | p :: ps => p ++ " "%char :: join_chars ps
  end.

(** One of [A] to [Z]. *)
Definition capital (c : ascii) : bool := between 65 90 (code c).

(** ** [graph_vis.py]: the graph of a FOON

    A [networkx.DiGraph] is taken as its set of nodes and its set of
    edges; [add_edge] adds the two end points as nodes when they are not
    there yet. *)

Module GraphVis.

Record DiGraph : Type := mkDiGraph {
  nodes : gset string;
  edges : gset (string * string)
}.

Definition empty : DiGraph := {| nodes := ∅; edges := ∅ |}.

Definition add_node (G : DiGraph) (n : string) : DiGraph :=
  {| nodes := nodes G ∪ {[ n ]}; edges := edges G |}.

Definition add_edge (G : DiGraph) (u v : string) : DiGraph :=
  {| nodes := nodes G ∪ {[ u ]} ∪ {[ v ]}; edges := edges G ∪ {[ (u, v) ]} |}.

(** Body of the inner loop of [foon_to_graph]; the state is the graph and
    [previous_object]. *)
Definition visit_line (st : DiGraph * option string) (line : string)
    : result (DiGraph * option string) :=
  let '(G, previous_object) := st in
  if startswith line "o" then
    match subscript (split line) 1 with
    | Raise e => Raise e
    | Ret object_name =>
        let G := add_node G object_name in
        let G := match previous_object with
                 | Some previous => add_edge G previous object_name
                 | None => G
                 end in
        Ret (G, Some object_name)
    end
  else if startswith line "m" then
    match subscript (split line) 1 with
    | Raise e => Raise e
    | Ret manipulation_name =>
        let G := add_node G manipulation_name in
        let G := match previous_object with
                 | Some previous => add_edge G previous manipulation_name
                 | None => G
                 end in
        Ret (G, Some manipulation_name)
    end
  else if startswith line "s" then Ret (G, previous_object)
  else Ret (G, previous_object).

(** Body of the outer loop: [previous_object] starts as [None] in every
    unit. *)
Definition visit_unit (G : DiGraph) (u : Unit) : result DiGraph :=
  then_result (fold_result visit_line u (G, None)) (fun st => Ret (fst st)).

Definition foon_to_graph (foon_data : list Unit) : result DiGraph :=
  fold_result visit_unit foon_data empty.

End GraphVis.

(** *** What the graph is expected to hold *)

(** A line that becomes a node: an object line or a motion line. *)
Definition node_line (line : string) : bool :=
  startswith line "o" || startswith line "m".

(** The name such a line gives its node: its second token. *)
Definition label (line : string) : option string :=
  if node_line line then split line !! 1 else None.

(** The node names of a unit, in line order. *)
Definition labels (u : Unit) : list string := omap label u.

(** Every object or motion line of the unit has a second token. *)
Definition drawable (u : Unit) : bool :=
  forallb (fun line => if node_line line then bool_decide (is_Some (split line !! 1))
                       else true) u.

(** The pairs of neighbours in a list. *)
Definition links (xs : list string) : list (string * string) := zip xs (tail xs).

(** The names of all units as nodes, neighbours within a unit as edges. *)
Definition graph_of (foon_data : list Unit) : GraphVis.DiGraph :=
  {| GraphVis.nodes := list_to_set (concat (labels <$> foon_data));
     GraphVis.edges := list_to_set (concat ((fun u => links (labels u)) <$> foon_data)) |}.

(** ** Vocabulary of the further properties *)

(** The first line of the unit has a second token, which is what
    [a_star_search] looks up in the motion table. *)
Definition first_line_named (u : Unit) : Prop :=
  exists line motion, u !! 0 = Some line /\ split line !! 1 = Some motion.

(** No motion of the table has the rate zero. *)
Definition no_zero_rate (table : gmap string float) : Prop :=
  forall m r, table !! m = Some r -> PrimFloat.eqb r 0 = false.

(** A non-empty string of the letters [a] to [z], digits and
    underscores. *)
Definition word_token (n : string) : Prop :=
  n ≠ EmptyString /\ Forall (fun c => lower_word c = true) (of_string n).

(** Every token of the line is such a string. *)
Definition tokens_are_words (line : string) : Prop :=
  forall n, n ∈ split line -> word_token n.

(** What a line of the kitchen file adds to the set. *)
Definition kitchen_entry (line : string) : string :=
  to_string (lower (strip (of_string line))).

(** The entry a line of the motion file stands for, if any. *)
Definition motion_entry (py_float : string -> option float) (line : string)
    : option (string * float) :=
  match split (to_string (strip (of_string line))) with
  | motion :: text :: _ =>
      match py_float text with
      | Some success_rate => Some (motion, success_rate)
      | None => None
      end
  | _ => None
  end.

(** The rates the lines of the file give for one motion, in file order. *)
Definition rates_for (py_float : string -> option float) (motion : string)
    (lines : list string) : list float :=
  omap (fun line =>
          match motion_entry py_float line with
          | Some (m, success_rate) =>
              if bool_decide (m = motion) then Some success_rate else None
          | None => None
          end) lines.

(** No object name of the unit is missing from the kitchen. *)
Definition fully_available (k : gset string) (u : Unit) : bool :=
  bool_decide (missing k u = []).

(** The names ahead, behind the previous name if there is one. *)
Definition chain (previous : option string) (xs : list string) : list string :=
  match previous with Some p => p :: xs | None => xs end.

(** Union of the node sets and of the edge sets. *)
Definition graph_union (G1 G2 : GraphVis.DiGraph) : GraphVis.DiGraph :=
  {| GraphVis.nodes := GraphVis.nodes G1 ∪ GraphVis.nodes G2;
     GraphVis.edges := GraphVis.edges G1 ∪ GraphVis.edges G2 |}.

(** * Properties *)

(** ** Basic facts about the effects *)

Lemma bind_attr {A B} (f : Self -> A) (k : A -> M B) w :
  bind (attr f) k w = k (f (self w)) w.
Proof. reflexivity. Qed.

Lemma bind_run {A B} (m : M A) (k : A -> M B) w r w' :
  m w = (r, w') ->
  bind m k w = match r with Ret a => k a w' | Raise e => (Raise e, w') end.
Proof. intros H. unfold bind. rewrite H. reflexivity. Qed.

(** ** The two helpers run without touching the world *)

Lemma for_fold_silent {X S} (body : S -> X -> M S) (f : S -> X -> result S) w :
  (forall s x, body s x w = (f s x, w)) ->
  forall xs s, for_fold xs body s w = (fold_result f xs s, w).
Proof.
  intros Hbody xs. induction xs as [|x xs IH]; intros s; simpl.
  - reflexivity.
  - erewrite bind_run by apply Hbody.
    destruct (f s x); [apply IH | reflexivity].
Qed.

Lemma available_step_run acc line w :
  available_step acc line w = (available_step_result (kitchen (self w)) acc line, w).
Proof.
  unfold available_step, available_step_result, object_name, subscript.
  destruct (startswith line "o"); [|reflexivity].
  destruct (split line !! 1) as [n|]; [|reflexivity].
  unfold bind, lift, attr. case_bool_decide; reflexivity.
Qed.

Lemma well_formed_cons line u :
  well_formed (line :: u)
  = (if startswith line "o" then bool_decide (is_Some (object_name line)) else true)
    && well_formed u.
Proof. reflexivity. Qed.

Lemma object_names_cons line u :
  object_names (line :: u)
  = match (if startswith line "o" then object_name line else None) with
    | Some n => n :: object_names u
    | None => object_names u
    end.
Proof. reflexivity. Qed.

Lemma available_fold k u : forall acc,
  fold_result (available_step_result k) u acc
  = if well_formed u then Ret (acc ++ missing k u) else Raise IndexError.
Proof.
  induction u as [|line u IH]; intros acc.
  - simpl. unfold missing. simpl. by rewrite app_nil_r.
  - cbn [fold_result]. rewrite well_formed_cons.
    unfold missing. rewrite object_names_cons.
    unfold available_step_result at 1.
    destruct (startswith line "o") eqn:Ho.
    + destruct (object_name line) as [n|] eqn:Hn.
      * rewrite (bool_decide_true (is_Some (Some n))) by (eexists; reflexivity).
        rewrite IH. simpl.
        destruct (well_formed u); [|reflexivity].
        unfold missing.
        case_bool_decide as Hk.
        -- rewrite filter_cons_False by tauto. reflexivity.
        -- rewrite filter_cons_True by done.
           rewrite <- app_assoc. reflexivity.
      * rewrite bool_decide_false by (intros [? ?]; discriminate).
        reflexivity.
    + rewrite IH. reflexivity.
Qed.

Lemma available_in_kitchen_run u w :
  available_in_kitchen u w
  = (if well_formed u then Ret (status_of (missing (kitchen (self w)) u))
     else Raise IndexError, w).
Proof.
  unfold available_in_kitchen.
  erewrite bind_run
    by (apply for_fold_silent; intros; apply available_step_run).
  rewrite available_fold.
  destruct (well_formed u); reflexivity.
Qed.

(** *** Text facts used by the goal matcher *)

Lemma append_cons c (s t : string) : (String c s ++ t)%string = String c (s ++ t)%string.
Proof. reflexivity. Qed.

Lemma append_empty (t : string) : (EmptyString ++ t)%string = t.
Proof. reflexivity. Qed.

Lemma prefix_app p : forall s, String.prefix p s = true <-> exists post, s = (p ++ post)%string.
Proof.
  induction p as [|c p IH]; intros s.
  - split; [intros _; exists s; reflexivity | intros _; destruct s; reflexivity].
  - destruct s as [|d s].
    + split; [discriminate | intros [post H]; discriminate].
    + simpl. destruct (Ascii.ascii_dec c d) as [->|Hne].
      * rewrite IH. split; intros [post H]; exists post.
        -- rewrite append_cons. f_equal. exact H.
        -- rewrite append_cons in H. injection H as H. exact H.
      * split; [discriminate | intros [post H]].
        rewrite append_cons in H. congruence.
Qed.

(** [needle in hay] holds exactly when [hay] is [needle] with some text
    before and after it. *)
Lemma contains_spec needle : forall hay,
  contains needle hay = true <-> exists pre post, hay = (pre ++ needle ++ post)%string.
Proof.
  induction hay as [|c hay IH].
  - cbn [contains]. rewrite orb_false_r, prefix_app. split.
    + intros [post H]. exists EmptyString, post. exact H.
    + intros [pre [post H]]. destruct pre.
      * rewrite append_empty in H. eauto.
      * rewrite append_cons in H. discriminate.
  - cbn [contains]. rewrite orb_true_iff, prefix_app, IH. split.
    + intros [[post H] | [pre [post H]]].
      * exists EmptyString, post. exact H.
      * exists (String c pre), post. rewrite append_cons. congruence.
    + intros [pre [post H]]. destruct pre as [|d pre].
      * left. rewrite append_empty in H. eauto.
      * right. exists pre, post. rewrite append_cons in H. congruence.
Qed.

Lemma contains_refl s : contains s s = true.
Proof.
  apply contains_spec. exists EmptyString, EmptyString. rewrite append_empty.
  induction s as [|c s IH]; [reflexivity|].
  rewrite append_cons. congruence.
Qed.

Lemma starts_o_not_s line : startswith line "o" = true -> startswith line "s" = false.
Proof.
  unfold startswith. intros [post ->]%prefix_app. reflexivity.
Qed.

(** The second disjunct of line 117 adds nothing to the first. *)
Lemma contains_or_equal (s v : string) :
  contains s v || bool_decide (s = v) = contains s v.
Proof.
  case_bool_decide as Heq; [|apply orb_false_r].
  subst v. rewrite contains_refl. reflexivity.
Qed.

Lemma matches_step_run g s flags line w :
  matches_step g s flags line w = (matches_step_result g s flags line, w).
Proof.
  destruct flags as [om sm].
  unfold matches_step, matches_step_result, object_name, subscript, shows_state,
    state_value.
  destruct (startswith line "o").
  - destruct (split line !! 1) as [n|]; [|reflexivity].
    unfold bind, lift. simpl. case_bool_decide; simpl.
    + rewrite orb_true_r. reflexivity.
    + rewrite orb_false_r. reflexivity.
  - destruct (startswith line "s"); simpl.
    + rewrite contains_or_equal.
      destruct (contains s _); simpl;
        [rewrite orb_true_r | rewrite orb_false_r]; reflexivity.
    + rewrite orb_false_r. reflexivity.
Qed.

Lemma names_object_named g line n :
  startswith line "o" = true -> object_name line = Some n ->
  names_object g line = bool_decide (g = n).
Proof.
  intros Ho Hn. unfold names_object. rewrite Ho, Hn. simpl.
  apply bool_decide_ext. split; congruence.
Qed.

Lemma shows_state_object s line : startswith line "o" = true -> shows_state s line = false.
Proof. intros Ho. unfold shows_state. by rewrite (starts_o_not_s _ Ho). Qed.

Lemma names_object_other g line : startswith line "o" = false -> names_object g line = false.
Proof. intros Ho. unfold names_object. by rewrite Ho. Qed.

Lemma matches_fold g s u : forall om sm,
  fold_result (matches_step_result g s) u (om, sm)
  = if well_formed u
    then Ret (om || existsb (names_object g) u, sm || existsb (shows_state s) u)
    else Raise IndexError.
Proof.
  induction u as [|line u IH]; intros om sm.
  - simpl. by rewrite !orb_false_r.
  - cbn [fold_result existsb]. rewrite well_formed_cons.
    unfold matches_step_result at 1.
    destruct (startswith line "o") eqn:Ho.
    + destruct (object_name line) as [n|] eqn:Hn.
      * rewrite (bool_decide_true (is_Some (Some n))) by (eexists; reflexivity).
        rewrite IH. cbn [fst snd andb].
        rewrite (names_object_named g line n Ho Hn), (shows_state_object s line Ho).
        destruct (well_formed u); [|reflexivity].
        by destruct om, sm, (bool_decide (g = n)).
      * rewrite bool_decide_false by (intros [? ?]; discriminate).
        reflexivity.
    + rewrite IH. cbn [fst snd andb orb].
      rewrite (names_object_other g line Ho).
      destruct (well_formed u); [|reflexivity].
      by destruct om, sm, (shows_state s line).
Qed.

Lemma unit_matches_goal_run u g s w :
  unit_matches_goal u g s w
  = (if well_formed u
     then Ret (existsb (names_object g) u && existsb (shows_state s) u)
     else Raise IndexError, w).
Proof.
  unfold unit_matches_goal.
  erewrite bind_run
    by (apply for_fold_silent; intros; apply matches_step_run).
  rewrite matches_fold.
  destruct (well_formed u); reflexivity.
Qed.

(** ** Closure of [computes] and [emits] under the effects *)

Section Closure.
Context {A B : Type}.

Lemma computes_ret (a : A) : computes (ret a) (fun _ => Ret a).
Proof. intros w. split; reflexivity. Qed.

Lemma computes_lift (r : result A) : computes (lift r) (fun _ => r).
Proof. intros w. split; reflexivity. Qed.

Lemma computes_attr (f : Self -> A) : computes (attr f) (fun s => Ret (f s)).
Proof. intros w. split; reflexivity. Qed.

Lemma computes_print (m : Msg) : computes (print m) (fun _ => Ret tt).
Proof. intros w. split; reflexivity. Qed.

Lemma computes_bind (m : M A) (k : A -> M B) f g :
  computes m f -> (forall a, computes (k a) (g a)) ->
  computes (bind m k) (fun s => then_result (f s) (fun a => g a s)).
Proof.
  intros Hm Hk w. destruct (Hm w) as [He Hs].
  unfold eval, exec, bind in *. destruct (m w) as [[a|e] w1]; simpl in *.
  - destruct (Hk a w1) as [He1 Hs1]. unfold eval, exec in *.
    rewrite <- He. simpl. rewrite He1, Hs1, Hs. done.
  - rewrite <- He. done.
Qed.

Lemma computes_ext (m : M A) f g :
  computes m f -> (forall s, f s = g s) -> computes m g.
Proof. intros Hm Hfg w. destruct (Hm w) as [He Hs]. rewrite <- Hfg. done. Qed.

Lemma emits_ret P (a : A) : emits P (ret a).
Proof. intros w. exists []. by rewrite app_nil_r. Qed.

Lemma emits_lift P (r : result A) : emits P (lift r).
Proof. intros w. exists []. by rewrite app_nil_r. Qed.

Lemma emits_attr P (f : Self -> A) : emits P (attr f).
Proof. intros w. exists []. by rewrite app_nil_r. Qed.

Lemma emits_print (P : Msg -> Prop) (m : Msg) : P m -> emits P (print m).
Proof. intros Hm w. exists [m]. split; [reflexivity | by constructor]. Qed.

Lemma emits_bind P (m : M A) (k : A -> M B) :
  emits P m -> (forall a, emits P (k a)) -> emits P (bind m k).
Proof.
  intros Hm Hk w. destruct (Hm w) as [out [Ho HP]].
  unfold exec, bind in *. destruct (m w) as [[a|e] w1]; simpl in *.
  - destruct (Hk a w1) as [out1 [Ho1 HP1]]. unfold exec in *.
    exists (out ++ out1). rewrite Ho1, Ho, app_assoc.
    split; [done | by apply Forall_app].
  - exists out. done.
Qed.
End Closure.

Lemma computes_for_each {X R} (body : X -> M (option R)) f :
  (forall x, computes (body x) (f x)) ->
  forall xs, computes (for_each xs body)
               (fun s => first_result (fun x => f x s) xs).
Proof.
  intros Hbody xs. induction xs as [|x xs IH]; simpl.
  - apply computes_ret.
  - eapply computes_ext.
    + apply (computes_bind _ _ (f x)
               (fun r s => match r with
                           | Some v => Ret (Some v)
                           | None => first_result (fun x => f x s) xs
                           end)); [apply Hbody|].
      intros [v|]; [apply computes_ret | apply IH].
    + intros s. simpl. destruct (f x s) as [[v|]|e]; reflexivity.
Qed.

Lemma emits_for_each P {X R} (body : X -> M (option R)) :
  (forall x, emits P (body x)) -> forall xs, emits P (for_each xs body).
Proof.
  intros Hbody xs. induction xs as [|x xs IH]; simpl.
  - apply emits_ret.
  - apply emits_bind; [apply Hbody|].
    intros [v|]; [apply emits_ret | apply IH].
Qed.

Lemma computes_for_fold {X S} (body : S -> X -> M S) f :
  (forall s x, computes (body s x) (f s x)) ->
  forall xs s0, computes (for_fold xs body s0)
                  (fun slf => fold_result (fun s x => f s x slf) xs s0).
Proof.
  intros Hbody xs. induction xs as [|x xs IH]; intros s0; simpl.
  - apply computes_ret.
  - eapply computes_ext.
    + eapply computes_bind; [apply Hbody|]. intros s1. apply IH.
    + intros slf. simpl. destruct (f s0 x slf); reflexivity.
Qed.

Lemma emits_for_fold P {X S} (body : S -> X -> M S) :
  (forall s x, emits P (body s x)) -> forall xs s0, emits P (for_fold xs body s0).
Proof.
  intros Hbody xs. induction xs as [|x xs IH]; intros s0; simpl.
  - apply emits_ret.
  - apply emits_bind; [apply Hbody | intros s1; apply IH].
Qed.

(** A computation that leaves the world as it is computes its result and
    emits nothing. *)
Lemma silent_computes {A} (m : M A) (f : Self -> result A) :
  (forall w, m w = (f (self w), w)) -> computes m f.
Proof. intros H w. unfold eval, exec. rewrite H. done. Qed.

Lemma silent_emits P {A} (m : M A) (f : Self -> result A) :
  (forall w, m w = (f (self w), w)) -> emits P m.
Proof.
  intros H w. exists []. unfold exec. rewrite H. simpl. by rewrite app_nil_r.
Qed.

Lemma computes_available u : computes (available_in_kitchen u) (available_result u).
Proof. apply silent_computes. intros w. apply available_in_kitchen_run. Qed.

Lemma computes_matches u g st :
  computes (unit_matches_goal u g st) (matches_result u g st).
Proof. apply silent_computes. intros w. apply unit_matches_goal_run. Qed.

Lemma emits_available P u : emits P (available_in_kitchen u).
Proof.
  apply (silent_emits P _ (available_result u)).
  intros w. apply available_in_kitchen_run.
Qed.

Lemma emits_matches P u g st : emits P (unit_matches_goal u g st).
Proof.
  apply (silent_emits P _ (matches_result u g st)).
  intros w. apply unit_matches_goal_run.
Qed.

(** ** [depth_limited_search] and [iterative_deepening_search] *)

Lemma computes_dls_visit g st d u :
  computes (dls_visit g st d u) (dls_visit_result g st u).
Proof.
  intros w. unfold eval, exec, dls_visit, dls_visit_result.
  rewrite (bind_run _ _ _ _ _ (unit_matches_goal_run u g st w)).
  unfold matches_result, available_result.
  destruct (well_formed u) eqn:Hwf; [|done].
  destruct (existsb (names_object g) u && existsb (shows_state st) u); [|done].
  rewrite (bind_run _ _ _ _ _ (available_in_kitchen_run u w)). rewrite Hwf.
  simpl. destruct (status_of _); done.
Qed.

Lemma computes_dls g st d :
  d ≠ 0%Z -> computes (depth_limited_search g st d) (dls_result g st).
Proof.
  intros Hd w. unfold depth_limited_search, dls_result.
  destruct (Z.eqb_spec d 0) as [|_]; [done|].
  unfold eval, exec, bind, attr. simpl.
  destruct (unit_to_objects (self w) !! g) as [bucket|]; [|done].
  apply (computes_for_each _ _ (computes_dls_visit g st d)).
Qed.

Lemma depth_zero_run g st w : depth_limited_search g st 0 w = (Ret None, w).
Proof. reflexivity. Qed.

(** A unit that the matcher accepts has at least one line. *)
Lemma dls_visit_result_nonempty g st u s v :
  dls_visit_result g st u s = Ret (Some v) -> v = u /\ u ≠ [].
Proof.
  unfold dls_visit_result, matches_result, available_result.
  destruct u as [|line u]; [discriminate|].
  destruct (well_formed (line :: u)); [|discriminate]. simpl.
  destruct (_ && _); [|discriminate]. simpl.
  destruct (is_True _); [|discriminate].
  intros [= <-]. done.
Qed.

Lemma first_result_elem {X R} (f : X -> result (option R)) xs v :
  first_result f xs = Ret (Some v) -> exists x, x ∈ xs /\ f x = Ret (Some v).
Proof.
  induction xs as [|x xs IH]; simpl; [discriminate|].
  destruct (f x) as [[r|]|e] eqn:Hx; [| |discriminate].
  - intros [= <-]. exists x. split; [apply list_elem_of_here | done].
  - intros [y [Hy Hf]]%IH. exists y. split; [by apply list_elem_of_further | done].
Qed.

Lemma dls_result_truthy g st s v :
  dls_result g st s = Ret (Some v) -> truthy_result (Some v) = true.
Proof.
  unfold dls_result. destruct (unit_to_objects s !! g) as [bucket|]; [|discriminate].
  intros [u [_ Hu]]%first_result_elem.
  apply dls_visit_result_nonempty in Hu as [-> Hne].
  destruct u; done.
Qed.

Lemma computes_ids_try g st d : computes (ids_try g st d) (ids_try_result g st d).
Proof.
  unfold ids_try, ids_try_result.
  eapply computes_ext.
  - apply (computes_bind _ _ (fun _ => Ret tt)
             (fun _ s => then_result
                (if (d =? 0)%Z then Ret None else dls_result g st s)
                (fun result => Ret (if truthy_result result then Some result else None))));
      [apply computes_print|].
    intros _.
    apply (computes_bind _ _ (fun s => if (d =? 0)%Z then Ret None else dls_result g st s)
             (fun result _ => Ret (if truthy_result result then Some result else None))).
    + destruct (Z.eqb_spec d 0) as [->|Hd].
      * apply silent_computes. intros w. apply depth_zero_run.
      * by apply computes_dls.
    + intros r. destruct (truthy_result r); apply computes_ret.
  - done.
Qed.

Lemma computes_ids g st max_depth :
  computes (iterative_deepening_search g st max_depth) (ids_result g st max_depth).
Proof.
  unfold iterative_deepening_search, ids_result.
  apply (computes_bind _ _
           (fun s => first_result (fun d => ids_try_result g st d s) (range max_depth))
           (fun r _ => Ret (match r with Some result => result | None => None end))).
  - apply computes_for_each. intros d. apply computes_ids_try.
  - intros [result|]; [apply computes_ret|].
    apply (computes_bind _ _ (fun _ => Ret tt) (fun _ _ => Ret None));
      [apply computes_print | intros _; apply computes_ret].
Qed.

(** *** What the searches print *)

Lemma depths_tried_none out : Forall not_announcement out -> depths_tried out = [].
Proof.
  induction 1 as [|m out Hm _ IH]; [reflexivity|].
  unfold depths_tried in *. simpl. rewrite Hm. exact IH.
Qed.

Lemma depths_tried_app out1 out2 :
  depths_tried (out1 ++ out2) = depths_tried out1 ++ depths_tried out2.
Proof. apply omap_app. Qed.

Lemma emits_dls_visit g st d u : emits not_announcement (dls_visit g st d u).
Proof.
  unfold dls_visit. apply emits_bind; [apply emits_matches|].
  intros [|].
  - apply emits_bind; [apply emits_available|]. intros ks.
    destruct (is_True ks);
      (apply emits_bind; [by apply emits_print | intros _; apply emits_ret]).
  - apply emits_bind; [by apply emits_print | intros _; apply emits_ret].
Qed.

Lemma emits_dls g st d : emits not_announcement (depth_limited_search g st d).
Proof.
  unfold depth_limited_search. destruct (d =? 0)%Z; [apply emits_ret|].
  apply emits_bind; [apply emits_attr|]. intros index.
  destruct (index !! g) as [bucket|].
  - apply emits_for_each. intros u. apply emits_dls_visit.
  - apply emits_bind; [by apply emits_print | intros _; apply emits_ret].
Qed.

(** One round of the deepening loop announces its depth and nothing else
    that counts as an announcement. *)
Lemma ids_try_output g st d w :
  exists out, stdout (exec (ids_try g st d) w)
              = stdout w ++ SearchingWithDepthLimit d :: out
              /\ Forall not_announcement out.
Proof.
  unfold ids_try, exec, bind, print. simpl.
  set (w1 := {| self := self w; stdout := stdout w ++ [SearchingWithDepthLimit d] |}).
  destruct (emits_dls g st d w1) as [out [Ho HP]]. unfold exec in Ho.
  exists out. split; [|exact HP].
  destruct (depth_limited_search g st d w1) as [[r|e] w2]; simpl in *.
  - destruct (truthy_result r); simpl; rewrite Ho; simpl;
      by rewrite <- app_assoc.
  - rewrite Ho. simpl. by rewrite <- app_assoc.
Qed.

(** When no unit qualifies, every depth of the list is tried, in order,
    and the loop falls through. *)
Lemma ids_loop_exhausts g st ds : forall w,
  dls_result g st (self w) = Ret None ->
  eval (for_each ds (ids_try g st)) w = Ret None
  /\ self (exec (for_each ds (ids_try g st)) w) = self w
  /\ exists out, stdout (exec (for_each ds (ids_try g st)) w) = stdout w ++ out
                 /\ depths_tried out = ds.
Proof.
  induction ds as [|d ds IH]; intros w Hnone.
  - repeat split. exists []. by rewrite app_nil_r.
  - destruct (computes_ids_try g st d w) as [He Hs].
    destruct (ids_try_output g st d w) as [out1 [Ho1 HP1]].
    assert (Hr : ids_try_result g st d (self w) = Ret None).
    { unfold ids_try_result. rewrite Hnone. by destruct (d =? 0)%Z. }
    rewrite Hr in He. unfold eval, exec in *. cbn [for_each]. unfold bind.
    destruct (ids_try g st d w) as [r w1]. simpl in He, Hs, Ho1. subst r.
    destruct (IH w1) as (He2 & Hs2 & out2 & Ho2 & Hd2); [by rewrite Hs|].
    unfold eval, exec in *.
    split; [exact He2|]. split; [by rewrite Hs2|].
    exists (SearchingWithDepthLimit d :: out1 ++ out2).
    rewrite Ho2, Ho1. split; [by rewrite <- app_assoc|].
    change (SearchingWithDepthLimit d :: out1 ++ out2)
      with ([SearchingWithDepthLimit d] ++ out1 ++ out2).
    rewrite !depths_tried_app, (depths_tried_none out1 HP1), Hd2. reflexivity.
Qed.

Lemma range_from_two max_depth :
  (2 <= max_depth)%Z ->
  range max_depth = 0%Z :: 1%Z :: (Z.of_nat <$> seq 2 (Z.to_nat max_depth - 2)).
Proof.
  intros H. unfold range.
  replace (Z.to_nat max_depth) with (S (S (Z.to_nat max_depth - 2))) at 1 by lia.
  reflexivity.
Qed.

Lemma ids_try_result_none g st s ds :
  dls_result g st s = Ret None ->
  first_result (fun d => ids_try_result g st d s) ds = Ret None.
Proof.
  intros Hnone. induction ds as [|d ds IH]; [reflexivity|].
  simpl. unfold ids_try_result at 1. rewrite Hnone.
  destruct (d =? 0)%Z; exact IH.
Qed.

Lemma ids_result_depth_one g st max_depth s :
  (2 <= max_depth)%Z -> ids_result g st max_depth s = dls_result g st s.
Proof.
  intros H. unfold ids_result. rewrite (range_from_two _ H).
  cbn [first_result]. unfold ids_try_result at 1 2. simpl.
  destruct (dls_result g st s) as [[v|]|e] eqn:Hd; simpl.
  - pose proof (dls_result_truthy _ _ _ _ Hd) as Ht.
    destruct v; [discriminate | reflexivity].
  - rewrite (ids_try_result_none g st s _ Hd). reflexivity.
  - reflexivity.
Qed.

(** ** [a_star_search] *)

Lemma truthy_status_of missing_objects : truthy (status_of missing_objects) = true.
Proof. by destruct missing_objects. Qed.

(** The availability test never turns the condition down: the condition
    is the goal matcher alone. *)
Lemma a_star_condition_run u o st w :
  a_star_condition u o st w = (matches_result u o st (self w), w).
Proof.
  unfold a_star_condition.
  rewrite (bind_run _ _ _ _ _ (unit_matches_goal_run u o st w)).
  unfold matches_result.
  destruct (well_formed u) eqn:Hwf; [|done].
  destruct (existsb (names_object o) u && existsb (shows_state st) u); [|done].
  rewrite (bind_run _ _ _ _ _ (available_in_kitchen_run u w)). rewrite Hwf.
  unfold ret. by rewrite truthy_status_of.
Qed.

Lemma computes_a_star_visit cost o st u :
  computes (a_star_visit cost o st u) (a_star_visit_result o st u).
Proof.
  intros w. unfold eval, exec, a_star_visit, a_star_visit_result.
  rewrite (bind_run _ _ _ _ _ (a_star_condition_run u o st w)).
  destruct (matches_result u o st (self w)) as [[|]|e]; [|done|done].
  unfold bind, lift, attr. simpl.
  destruct (subscript u 0) as [first_line|e]; [|done]. simpl.
  destruct (subscript (split first_line) 1) as [motion|e]; [|done]. simpl.
  destruct (true_div 1 _) as [q|e]; done.
Qed.

Lemma computes_a_star g st : computes (a_star_search g st) (a_star_result g st).
Proof.
  intros w. unfold a_star_search, a_star_result. cbn [heappush a_star_loop].
  rewrite bool_decide_false by set_solver.
  unfold eval, exec. rewrite bind_attr.
  destruct (unit_to_objects (self w) !! g) as [bucket|]; [|split; reflexivity].
  destruct (computes_for_each _ _ (computes_a_star_visit 0%float g st) bucket w)
    as [He Hs].
  unfold eval, exec, bind in *.
  destruct (for_each bucket _ w) as [[[v|]|e] w1]; simpl in *; rewrite <- He; done.
Qed.

(** The report of [test_script.py]: the units with nothing missing. *)
Lemma usable_condition_run u w :
  usable_condition u w
  = (then_result (available_result u (self w)) (fun st => Ret (eq_True st)), w).
Proof.
  unfold usable_condition.
  rewrite (bind_run _ _ _ _ _ (available_in_kitchen_run u w)).
  unfold available_result. by destruct (well_formed u).
Qed.

(** ** The sample FOON *)

Example recipe_loads :
  Parser.load_foon Recipe.lines = Ret ([Recipe.with_knife; Recipe.by_hand], Recipe.index).
Proof. vm_compute. reflexivity. Qed.

(** The worlds used below are what [__init__] builds from the sample
    FOON, a kitchen file and a motion file, for any parser of floats that
    reads ["0"] as zero. *)
Lemma recipe_init (py_float : string -> option float) :
  py_float "0" = Some 0%float ->
  __init__ py_float Recipe.lines ["Onion"] [] = Ret (self (Recipe.world {[ "onion" ]} ∅))
  /\ __init__ py_float Recipe.lines [] [] = Ret (self (Recipe.world ∅ ∅))
  /\ __init__ py_float Recipe.lines ["onion"] ["onion 0"]
     = Ret (self (Recipe.world {[ "onion" ]} {[ "onion" := 0%float ]})).
Proof.
  intros Hzero. unfold __init__. rewrite recipe_loads.
  split; [|split]; f_equal.
  unfold load_motion. simpl. rewrite Hzero. reflexivity.
Qed.

(** ** The search drivers *)

(** C1 (the code departs from it).  [iterative_deepening_search] and
    [a_star_search] do not return the same unit.  With onion in the
    kitchen and no knife, the deepening search skips the unit that needs
    the knife and returns the one made by hand, while [a_star_search]
    returns the unit that needs the knife; with an empty kitchen the
    deepening search returns [None] and [a_star_search] still returns a
    unit. *)
Theorem ids_and_a_star_disagree :
  eval (iterative_deepening_search "onion" "chopped" default_max_depth)
       (Recipe.world {[ "onion" ]} ∅) = Ret (Some Recipe.by_hand)
  /\ eval (a_star_search "onion" "chopped")
          (Recipe.world {[ "onion" ]} ∅) = Ret (Some Recipe.with_knife)
  /\ eval (iterative_deepening_search "onion" "chopped" default_max_depth)
          (Recipe.world ∅ ∅) = Ret None
  /\ eval (a_star_search "onion" "chopped")
          (Recipe.world ∅ ∅) = Ret (Some Recipe.with_knife).
Proof. repeat split; vm_compute; reflexivity. Qed.

(** C3 (the code departs from it).  [a_star_search] returns the first
    unit of the bucket that matches the goal even when objects of that
    unit are missing from the kitchen: here it returns the unit that
    needs the absent knife, although a later unit of the bucket matches
    and is fully available (the one [depth_limited_search] returns), and
    it returns a unit where no unit is fully available. *)
Theorem a_star_returns_unavailable_unit :
  eval (a_star_search "onion" "chopped") (Recipe.world {[ "onion" ]} ∅)
    = Ret (Some Recipe.with_knife)
  /\ eval (available_in_kitchen Recipe.with_knife) (Recipe.world {[ "onion" ]} ∅)
    = Ret (PyList ["knife"])
  /\ eval (depth_limited_search "onion" "chopped" 1) (Recipe.world {[ "onion" ]} ∅)
    = Ret (Some Recipe.by_hand)
  /\ eval (available_in_kitchen Recipe.by_hand) (Recipe.world {[ "onion" ]} ∅)
    = Ret PyTrue
  /\ eval (a_star_search "knife" "clean") (Recipe.world ∅ ∅)
    = Ret (Some Recipe.with_knife)
  /\ eval (depth_limited_search "knife" "clean" 1) (Recipe.world ∅ ∅) = Ret None.
Proof. repeat split; vm_compute; reflexivity. Qed.

(** C8 (the code departs from it).  The outcome of [a_star_search]
    depends on the motion table: with an empty table the search returns a
    unit, and with a table that gives the looked-up name (the second
    token of the unit's first line) the rate zero, the division
    [1 / success_rate] raises [ZeroDivisionError]. *)
Theorem a_star_depends_on_motion_table :
  eval (a_star_search "onion" "chopped") (Recipe.world {[ "onion" ]} ∅)
    = Ret (Some Recipe.with_knife)
  /\ eval (a_star_search "onion" "chopped")
          (Recipe.world {[ "onion" ]} {[ "onion" := 0%float ]})
    = Raise ZeroDivisionError.
Proof. split; vm_compute; reflexivity. Qed.

(** Where no rate of the table is zero, the table does not matter; the
    kitchen never does. *)
Lemma a_star_result_nonzero_tables g st s1 s2 :
  unit_to_objects s1 = unit_to_objects s2 ->
  (forall m r, motion_data s1 !! m = Some r -> PrimFloat.eqb r 0 = false) ->
  (forall m r, motion_data s2 !! m = Some r -> PrimFloat.eqb r 0 = false) ->
  a_star_result g st s1 = a_star_result g st s2.
Proof.
  intros Hidx H1 H2. unfold a_star_result. rewrite Hidx.
  destruct (unit_to_objects s2 !! g) as [bucket|]; [|reflexivity].
  induction bucket as [|u bucket IH]; [reflexivity|]. simpl. rewrite IH.
  assert (Hu : a_star_visit_result g st u s1 = a_star_visit_result g st u s2).
  { unfold a_star_visit_result, matches_result.
    destruct (well_formed u); [|reflexivity]. simpl.
    destruct (_ && _); [|reflexivity].
    destruct (subscript u 0) as [first_line|]; [|reflexivity]. simpl.
    destruct (subscript (split first_line) 1) as [motion|]; [|reflexivity]. simpl.
    unfold true_div.
    assert (Hnz : forall s, (forall m r, motion_data s !! m = Some r ->
                                         PrimFloat.eqb r 0 = false) ->
                  PrimFloat.eqb (default 1%float (motion_data s !! motion)) 0 = false).
    { intros s Hs. destruct (motion_data s !! motion) as [r|] eqn:Hm; simpl.
      - exact (Hs _ _ Hm).
      - reflexivity. }
    rewrite (Hnz s1 H1), (Hnz s2 H2). reflexivity. }
  rewrite Hu. reflexivity.
Qed.

Lemma a_star_search_nonzero_tables g st w1 w2 :
  unit_to_objects (self w1) = unit_to_objects (self w2) ->
  (forall m r, motion_data (self w1) !! m = Some r -> PrimFloat.eqb r 0 = false) ->
  (forall m r, motion_data (self w2) !! m = Some r -> PrimFloat.eqb r 0 = false) ->
  eval (a_star_search g st) w1 = eval (a_star_search g st) w2.
Proof.
  intros Hidx H1 H2.
  rewrite (proj1 (computes_a_star g st w1)), (proj1 (computes_a_star g st w2)).
  by apply a_star_result_nonzero_tables.
Qed.

Lemma a_star_search_ignores_kitchen g st w1 w2 :
  unit_to_objects (self w1) = unit_to_objects (self w2) ->
  motion_data (self w1) = motion_data (self w2) ->
  eval (a_star_search g st) w1 = eval (a_star_search g st) w2.
Proof.
  intros Hidx Htable.
  rewrite (proj1 (computes_a_star g st w1)), (proj1 (computes_a_star g st w2)).
  unfold a_star_result, a_star_visit_result. by rewrite Hidx, Htable.
Qed.

(** ** The availability check *)

Lemma missing_nil_iff k u :
  missing k u = [] <-> forall n, n ∈ object_names u -> n ∈ k.
Proof.
  unfold missing. split.
  - intros Hnil n Hn. destruct (decide (n ∈ k)) as [|Hk]; [done|].
    assert (Hin : n ∈ filter (fun n => n ∉ k) (object_names u))
      by (apply list_elem_of_filter; done).
    rewrite Hnil in Hin. by apply not_elem_of_nil in Hin.
  - intros Hall. induction (object_names u) as [|n ns IH]; [reflexivity|].
    rewrite filter_cons_False.
    + apply IH. intros m Hm. apply Hall. by apply list_elem_of_further.
    + intros Hk. apply Hk, Hall, list_elem_of_here.
Qed.

(** On a well-formed unit, the names of [object_names] are the second
    tokens of the lines tagged [o]. *)
Lemma elem_of_object_names u n :
  n ∈ object_names u
  <-> exists line, line ∈ u /\ startswith line "o" = true /\ object_name line = Some n.
Proof.
  unfold object_names. rewrite list_elem_of_omap. split.
  - intros [line [Hl Hn]]. exists line. split; [done|].
    destruct (startswith line "o"); [done | discriminate].
  - intros [line (Hl & Ho & Hn)]. exists line. split; [done|]. by rewrite Ho.
Qed.

Lemma well_formed_spec u :
  well_formed u = true
  <-> forall line, line ∈ u -> startswith line "o" = true -> is_Some (object_name line).
Proof.
  unfold well_formed. rewrite forallb_forall. split.
  - intros H line Hl Ho. apply list_elem_of_In in Hl. specialize (H line Hl).
    unfold line_ok in H. rewrite Ho in H. by apply bool_decide_eq_true in H.
  - intros H line Hl. apply list_elem_of_In in Hl. unfold line_ok.
    destruct (startswith line "o") eqn:Ho; [|done].
    apply bool_decide_eq_true. by apply H.
Qed.

(** C2 (as stated, it fails on units with an [o] line that has no second
    token).  A unit whose only line is ["o"]: the call raises
    [IndexError]; it returns neither [True] nor a list. *)
Lemma available_in_kitchen_bare_tag :
  eval (available_in_kitchen ["o"]) (Recipe.world ∅ ∅) = Raise IndexError
  /\ ~ (eval (available_in_kitchen ["o"]) (Recipe.world ∅ ∅) = Ret PyTrue
        \/ exists missing_objects,
             eval (available_in_kitchen ["o"]) (Recipe.world ∅ ∅)
             = Ret (PyList missing_objects)).
Proof.
  split; [vm_compute; reflexivity|].
  intros [H | [l H]]; vm_compute in H; discriminate.
Qed.

(** C2, amended.  For every unit in which each line starting with [o] has
    a second token, [available_in_kitchen] returns [True] if and only if
    the name (second token) of every line starting with [o] is in the
    kitchen set; otherwise it returns exactly the list of the missing
    names, in the order of their lines. *)
Theorem available_in_kitchen_spec (u : Unit) (w : World) :
  well_formed u = true ->
  let all_present :=
    forall line, line ∈ u -> startswith line "o" = true ->
      exists n, object_name line = Some n /\ n ∈ kitchen (self w) in
  (eval (available_in_kitchen u) w = Ret PyTrue <-> all_present)
  /\ (~ all_present ->
      eval (available_in_kitchen u) w
      = Ret (PyList (filter (fun n => n ∉ kitchen (self w)) (object_names u)))).
Proof.
  intros Hwf all_present. unfold eval. rewrite available_in_kitchen_run, Hwf. simpl.
  assert (Hall : (forall n, n ∈ object_names u -> n ∈ kitchen (self w))
                 <-> all_present).
  { split.
    - intros H line Hl Ho.
      destruct (proj1 (well_formed_spec u) Hwf line Hl Ho) as [n Hn].
      exists n. split; [done|]. apply H, elem_of_object_names. eauto.
    - intros H n (line & Hl & Ho & Hn)%elem_of_object_names.
      destruct (H line Hl Ho) as [n' [Hn' Hk]]. congruence. }
  rewrite <- Hall, <- missing_nil_iff.
  change (filter (fun n => n ∉ kitchen (self w)) (object_names u))
    with (missing (kitchen (self w)) u).
  destruct (missing (kitchen (self w)) u) as [|n ns]; simpl.
  - split; [done|]. intros H. by destruct H.
  - split; [split; discriminate|]. reflexivity.
Qed.

(** The unit that needs the knife, in a kitchen with onion only: the
    report is the list holding the knife. *)
Lemma available_in_kitchen_spec_witness :
  well_formed Recipe.with_knife = true
  /\ eval (available_in_kitchen Recipe.with_knife) (Recipe.world {[ "onion" ]} ∅)
     = Ret (PyList ["knife"]).
Proof.
  split; [reflexivity|].
  destruct (available_in_kitchen_spec Recipe.with_knife
              (Recipe.world {[ "onion" ]} ∅) eq_refl) as [Hiff H].
  rewrite H; [vm_compute; reflexivity|].
  intros Hall. apply Hiff in Hall. vm_compute in Hall. discriminate.
Defined.

(** C4 (as stated, it fails for [test_script.py]).  The report of
    [test_script.py] compares the status with [== True]; for a unit with
    a missing object that condition is false, not true. *)
Lemma usable_condition_false :
  eval (usable_condition Recipe.with_knife) (Recipe.world {[ "onion" ]} ∅) = Ret false
  /\ eval run_available_units_check (Recipe.world {[ "onion" ]} ∅)
     = Ret [Recipe.by_hand]
  /\ ~ (forall b, eval (usable_condition Recipe.with_knife)
                       (Recipe.world {[ "onion" ]} ∅) = Ret b -> b = true).
Proof.
  split; [vm_compute; reflexivity|]. split; [vm_compute; reflexivity|].
  intros H. specialize (H false). discriminate H. vm_compute. reflexivity.
Qed.

(** C4, amended.  Whatever [available_in_kitchen] returns is never falsy:
    it is [True] or a non-empty list; a unit with no line starting with
    [o] yields [True]; taken as a truth value, as in the condition of
    [a_star_search], the status is always true, so that condition is the
    goal matcher alone.  [test_script.py] compares the status with
    [== True] instead, which holds exactly when the status is [True]. *)
Theorem available_status_never_falsy (u : Unit) (w : World) :
  (forall v, eval (available_in_kitchen u) w = Ret v ->
     (v = PyTrue \/ exists n rest, v = PyList (n :: rest))
     /\ truthy v = true
     /\ eval (usable_condition u) w = Ret (eq_True v)
     /\ (eq_True v = true <-> v = PyTrue))
  /\ ((forall line, line ∈ u -> startswith line "o" = false) ->
      eval (available_in_kitchen u) w = Ret PyTrue)
  /\ (forall o st, eval (a_star_condition u o st) w = eval (unit_matches_goal u o st) w).
Proof.
  split; [|split].
  - intros v. unfold eval. rewrite usable_condition_run, available_in_kitchen_run.
    unfold available_result. destruct (well_formed u); [|discriminate]. simpl.
    intros [= <-].
    destruct (missing (kitchen (self w)) u) as [|n ns]; simpl.
    + repeat split; eauto.
    + repeat split; eauto; discriminate.
  - intros Hno. unfold eval. rewrite available_in_kitchen_run.
    assert (Hnames : object_names u = []).
    { induction u as [|line u IH]; [reflexivity|].
      rewrite object_names_cons, (Hno line) by apply list_elem_of_here.
      apply IH. intros l Hl. apply Hno. by apply list_elem_of_further. }
    assert (Hwf : well_formed u = true).
    { apply well_formed_spec. intros line Hl Ho. rewrite (Hno line Hl) in Ho.
      discriminate. }
    rewrite Hwf. unfold missing. rewrite Hnames. reflexivity.
  - intros o st. unfold eval.
    rewrite a_star_condition_run, unit_matches_goal_run. reflexivity.
Qed.

(** The list holding the knife counts as true in a condition, and fails
    the comparison of [test_script.py]. *)
Lemma available_status_never_falsy_witness :
  truthy (PyList ["knife"]) = true
  /\ eval (usable_condition Recipe.with_knife) (Recipe.world {[ "onion" ]} ∅)
     = Ret false.
Proof.
  destruct (available_status_never_falsy Recipe.with_knife
              (Recipe.world {[ "onion" ]} ∅)) as [H _].
  destruct (H (PyList ["knife"])) as (_ & Ht & Hu & _);
    [vm_compute; reflexivity|].
  split; [exact Ht | exact Hu].
Defined.

(** ** The goal matcher *)

Lemma existsb_elem {X} (p : X -> bool) (xs : list X) :
  existsb p xs = true <-> exists x, x ∈ xs /\ p x = true.
Proof.
  rewrite existsb_exists. split; intros [x [Hx Hp]]; exists x;
    (split; [by apply list_elem_of_In | done]).
Qed.

(** C5 (as stated, it fails on units with an [o] line that has no second
    token).  The unit below has an object line naming the goal object
    and a state line containing the goal state, and the call raises
    [IndexError] on the bare tag instead of returning true. *)
Lemma unit_matches_goal_bare_tag :
  let u := ["o1 onion 1"; "s0 chopped"; "o"] in
  (exists line, line ∈ u /\ startswith line "o" = true
                /\ object_name line = Some "onion")
  /\ (exists line, line ∈ u /\ startswith line "s" = true
                   /\ contains "chopped" (state_value line) = true)
  /\ eval (unit_matches_goal u "onion" "chopped") (Recipe.world ∅ ∅)
     = Raise IndexError
  /\ eval (unit_matches_goal u "onion" "chopped") (Recipe.world ∅ ∅) <> Ret true.
Proof.
  intros u. split; [|split; [|split]].
  - exists "o1 onion 1". split; [apply list_elem_of_here | split; reflexivity].
  - exists "s0 chopped".
    split; [apply list_elem_of_further, list_elem_of_here | split; reflexivity].
  - vm_compute. reflexivity.
  - vm_compute. discriminate.
Qed.

(** C5, amended.  For every unit in which each line starting with [o] has
    a second token, and every goal object and goal state,
    [unit_matches_goal] returns true if and only if some line starting
    with [o] has the goal object as its second token and some line
    starting with [s] has the goal state inside (or equal to) the rest of
    the line; the two lines are looked for independently of each other. *)
Theorem unit_matches_goal_spec (u : Unit) (goal_object goal_state : string) (w : World) :
  well_formed u = true ->
  exists b, eval (unit_matches_goal u goal_object goal_state) w = Ret b
    /\ (b = true <->
        (exists line, line ∈ u /\ startswith line "o" = true
                      /\ object_name line = Some goal_object)
        /\ (exists line, line ∈ u /\ startswith line "s" = true
                         /\ exists pre post,
                              state_value line = (pre ++ goal_state ++ post)%string)).
Proof.
  intros Hwf. unfold eval. rewrite unit_matches_goal_run, Hwf. simpl.
  eexists. split; [reflexivity|].
  rewrite andb_true_iff, !existsb_elem.
  unfold names_object, shows_state.
  split; intros [[l1 [Hl1 H1]] [l2 [Hl2 H2]]].
  - apply andb_true_iff in H1 as [Ho Hn]. apply bool_decide_eq_true in Hn.
    apply andb_true_iff in H2 as [Hs Hc]. apply contains_spec in Hc.
    split; [exists l1 | exists l2]; done.
  - destruct H1 as [Ho Hn]. destruct H2 as [Hs Hc]. apply contains_spec in Hc.
    split; [exists l1 | exists l2]; (split; [done|]); apply andb_true_iff.
    + split; [done | by apply bool_decide_eq_true].
    + done.
Qed.

(** The state line that matches may describe another object than the one
    that matches: the knife is clean, the onion is not. *)
Lemma unit_matches_goal_spec_witness :
  well_formed Recipe.with_knife = true
  /\ eval (unit_matches_goal Recipe.with_knife "onion" "clean") (Recipe.world ∅ ∅)
     = Ret true.
Proof.
  split; [reflexivity|].
  destruct (unit_matches_goal_spec Recipe.with_knife "onion" "clean"
              (Recipe.world ∅ ∅) eq_refl) as [b [Hb _]].
  rewrite Hb. vm_compute in Hb. symmetry. exact Hb.
Defined.

(** ** Depth and unknown goals *)

(** C6.  For every goal, [depth_limited_search] gives the same outcome at
    every depth from 1 on, and [None] at depth 0;
    [iterative_deepening_search] with a [max_depth] of at least 2 gives
    exactly the outcome of [depth_limited_search] at depth 1; and when
    that outcome is [None] the deepening loop runs through all of
    [range(max_depth)], one announced depth per iteration, before
    returning [None]. *)
Theorem depth_does_not_matter (goal_object goal_state : string) (w : World) :
  (forall d1 d2 : Z, (1 <= d1)%Z -> (1 <= d2)%Z ->
     eval (depth_limited_search goal_object goal_state d1) w
     = eval (depth_limited_search goal_object goal_state d2) w)
  /\ eval (depth_limited_search goal_object goal_state 0) w = Ret None
  /\ (forall max_depth : Z, (2 <= max_depth)%Z ->
        eval (iterative_deepening_search goal_object goal_state max_depth) w
        = eval (depth_limited_search goal_object goal_state 1) w)
  /\ (forall max_depth : Z,
        eval (depth_limited_search goal_object goal_state 1) w = Ret None ->
        eval (iterative_deepening_search goal_object goal_state max_depth) w = Ret None
        /\ exists out,
             stdout (exec (iterative_deepening_search goal_object goal_state max_depth) w)
             = stdout w ++ out
             /\ depths_tried out = range max_depth
             /\ length (depths_tried out) = Z.to_nat max_depth).
Proof.
  assert (Hone : eval (depth_limited_search goal_object goal_state 1) w
                 = dls_result goal_object goal_state (self w))
    by (apply computes_dls; lia).
  split; [|split; [|split]].
  - intros d1 d2 H1 H2.
    rewrite (proj1 (computes_dls goal_object goal_state d1 ltac:(lia) w)).
    rewrite (proj1 (computes_dls goal_object goal_state d2 ltac:(lia) w)).
    reflexivity.
  - reflexivity.
  - intros max_depth Hmd.
    rewrite (proj1 (computes_ids goal_object goal_state max_depth w)), Hone.
    by apply ids_result_depth_one.
  - intros max_depth Hnone. rewrite Hone in Hnone.
    destruct (ids_loop_exhausts goal_object goal_state (range max_depth) w Hnone)
      as (He & Hs & out & Ho & Hd).
    unfold eval, exec, iterative_deepening_search, bind in *.
    destruct (for_each (range max_depth) _ w) as [r w1]. simpl in *. subst r.
    split; [reflexivity|].
    exists (out ++ [UnableToLocateGoal max_depth]). simpl.
    rewrite Ho, <- app_assoc. split; [reflexivity|].
    rewrite depths_tried_app, Hd. simpl. rewrite app_nil_r.
    split; [reflexivity|].
    unfold range. by rewrite length_fmap, length_seq.
Qed.

(** Depth 7 finds what depth 1 finds; with an empty kitchen three rounds
    of deepening end in [None]. *)
Lemma depth_does_not_matter_witness :
  eval (depth_limited_search "onion" "chopped" 7) (Recipe.world {[ "onion" ]} ∅)
  = Ret (Some Recipe.by_hand)
  /\ eval (iterative_deepening_search "onion" "chopped" 3) (Recipe.world ∅ ∅)
     = Ret None.
Proof.
  destruct (depth_does_not_matter "onion" "chopped" (Recipe.world {[ "onion" ]} ∅))
    as (H17 & _).
  destruct (depth_does_not_matter "onion" "chopped" (Recipe.world ∅ ∅))
    as (_ & _ & _ & Hnone).
  split.
  - rewrite (H17 7%Z 1%Z) by lia. vm_compute. reflexivity.
  - apply (Hnone 3%Z). vm_compute. reflexivity.
Defined.

(** C7.  For every goal object that is not a key of the unit index,
    [depth_limited_search], at any depth, and [a_star_search] return
    [None]; neither raises. *)
Theorem unknown_goal_returns_none (goal_object goal_state : string) (w : World) :
  unit_to_objects (self w) !! goal_object = None ->
  (forall depth : Z,
     eval (depth_limited_search goal_object goal_state depth) w = Ret None)
  /\ eval (a_star_search goal_object goal_state) w = Ret None.
Proof.
  intros Hkey. split.
  - intros depth. unfold eval, depth_limited_search.
    destruct (depth =? 0)%Z; [reflexivity|].
    rewrite bind_attr, Hkey. reflexivity.
  - rewrite (proj1 (computes_a_star goal_object goal_state w)).
    unfold a_star_result. by rewrite Hkey.
Qed.

(** The sample FOON has no omelette. *)
Lemma unknown_goal_returns_none_witness :
  eval (depth_limited_search "omelette" "cooked" 5) (Recipe.world ∅ ∅) = Ret None
  /\ eval (a_star_search "omelette" "cooked") (Recipe.world ∅ ∅) = Ret None.
Proof.
  destruct (unknown_goal_returns_none "omelette" "cooked" (Recipe.world ∅ ∅))
    as [Hd Ha]; [vm_compute; reflexivity|].
  split; [apply Hd | exact Ha].
Defined.

(** ** Nothing is written to the loaded object *)

(** C9.  Each of [iterative_deepening_search], [depth_limited_search],
    [a_star_search], [unit_matches_goal] and [available_in_kitchen]
    leaves the loaded object (the units, the index, the kitchen set and
    the motion table) exactly as it was, whatever the arguments and
    whether the call returns or raises. *)
Theorem calls_leave_loaded_state (w : World) (goal_object goal_state : string)
    (depth max_depth : Z) (u : Unit) :
  self (exec (iterative_deepening_search goal_object goal_state max_depth) w) = self w
  /\ self (exec (depth_limited_search goal_object goal_state depth) w) = self w
  /\ self (exec (a_star_search goal_object goal_state) w) = self w
  /\ self (exec (unit_matches_goal u goal_object goal_state) w) = self w
  /\ self (exec (available_in_kitchen u) w) = self w.
Proof.
  split; [|split; [|split; [|split]]].
  - apply computes_ids.
  - destruct (Z.eq_dec depth 0%Z) as [->|Hd]; [reflexivity|].
    by apply computes_dls.
  - apply computes_a_star.
  - apply computes_matches.
  - apply computes_available.
Qed.

(** ** The parser

    The loop of [load_foon] keeps [Inv]; the returned containers are then
    read through the final store. *)

Lemma nonempty_addrs_snoc segs u : forall base,
  nonempty_addrs base (segs ++ [u])
  = nonempty_addrs base segs
    ++ match u with [] => [] | _ :: _ => [base + length segs] end.
Proof.
  induction segs as [|v segs IH]; intros base; simpl.
  - rewrite Nat.add_0_r. by destruct u.
  - rewrite IH. replace (S base + length segs) with (base + S (length segs)) by lia.
    by destruct v.
Qed.

Lemma addr_bucket_snoc name segs u : forall base,
  addr_bucket name base (segs ++ [u])
  = addr_bucket name base segs ++ replicate (hits name u) (base + length segs).
Proof.
  induction segs as [|v segs IH]; intros base; simpl.
  - by rewrite Nat.add_0_r, app_nil_r.
  - rewrite IH, app_assoc.
    by replace (S base + length segs) with (base + S (length segs)) by lia.
Qed.

Lemma hits_snoc name u l :
  hits name (u ++ [l]) = hits name u + (if names_object name l then 1 else 0).
Proof.
  unfold hits. rewrite List.filter_app, length_app. simpl.
  by destruct (names_object name l).
Qed.

Lemma init_inv : Inv [] [] Parser.init.
Proof. split; reflexivity. Qed.

Lemma step_delimiter front cur s raw :
  Inv front cur s -> Parser.is_delimiter (normalize raw) = true ->
  exists s', Parser.step s raw = Ret s' /\ Inv (front ++ [cur]) [] s'.
Proof.
  intros [Hst Hcu Hun Hix] Hd. unfold Parser.step. rewrite Hd.
  eexists. split; [reflexivity|]. split; simpl.
  - by rewrite Hst.
  - by rewrite Hst.
  - rewrite nonempty_addrs_snoc, Hun, Hcu, Hst. unfold Parser.deref.
    rewrite list_lookup_middle by done. simpl.
    destruct cur; [by rewrite app_nil_r | done].
  - intros name. rewrite Hix, (addr_bucket_snoc name (front ++ [cur]) []).
    unfold hits. simpl. by rewrite app_nil_r.
Qed.

Lemma bucket_append_eq name a d :
  Parser.bucket_append name a d !! name = Some (default [] (d !! name) ++ [a]).
Proof.
  unfold Parser.bucket_append. rewrite lookup_alter_eq.
  destruct (d !! name) as [b|] eqn:Hd.
  - by rewrite Hd.
  - by rewrite lookup_insert_eq.
Qed.

Lemma bucket_append_ne name other a d :
  name ≠ other -> Parser.bucket_append name a d !! other = d !! other.
Proof.
  intros Hne. unfold Parser.bucket_append. rewrite lookup_alter_ne by done.
  destruct (d !! name); [done|]. by rewrite lookup_insert_ne.
Qed.

Lemma nonempty_snoc {X} (l : list X) (x : X) :
  Some (default [] (nonempty l) ++ [x]) = nonempty (l ++ [x]).
Proof. by destruct l. Qed.

Lemma step_line front cur s raw :
  Inv front cur s -> Parser.is_delimiter (normalize raw) = false ->
  line_ok (normalize raw) = true ->
  exists s', Parser.step s raw = Ret s' /\ Inv front (cur ++ [normalize raw]) s'.
Proof.
  intros [Hst Hcu Hun Hix] Hd Hok. unfold Parser.step. rewrite Hd.
  set (line := normalize raw) in *.
  assert (Hstore : alter (fun u => u ++ [line]) (Parser.current_unit s) (Parser.store s)
                   = front ++ [cur ++ [line]]).
  { rewrite Hst, Hcu. rewrite <- (Nat.add_0_r (length front)).
    by rewrite alter_app_r. }
  unfold line_ok in Hok.
  destruct (startswith line "o") eqn:Ho.
  - apply bool_decide_eq_true in Hok as [n Hn].
    unfold subscript. unfold object_name in Hn. rewrite Hn.
    eexists. split; [reflexivity|]. split; simpl; try done.
    intros name. rewrite addr_bucket_snoc, hits_snoc. simpl.
    destruct (decide (n = name)) as [->|Hne].
    + rewrite bucket_append_eq, Hix, addr_bucket_snoc, Hcu. simpl.
      rewrite (names_object_named name line name Ho Hn).
      rewrite bool_decide_true by done.
      rewrite Nat.add_1_r, replicate_S_end, !app_assoc.
      apply nonempty_snoc.
    + rewrite bucket_append_ne, Hix, addr_bucket_snoc by done.
      rewrite (names_object_named name line n Ho Hn).
      rewrite bool_decide_false by done. by rewrite Nat.add_0_r.
  - eexists. split; [reflexivity|]. split; simpl; try done.
    intros name. rewrite Hix, !addr_bucket_snoc, hits_snoc.
    rewrite (names_object_other name line Ho). by rewrite Nat.add_0_r.
Qed.

Lemma run_inv lines : forall front cur s,
  Inv front cur s -> well_formed (normalize <$> lines) = true ->
  exists s' front' cur',
    Parser.run s lines = Ret s' /\ Inv front' cur' s'
    /\ front' ++ [cur'] = front ++ segs_from cur (normalize <$> lines).
Proof.
  induction lines as [|raw lines IH]; intros front cur s Hinv Hok.
  - exists s, front, cur. done.
  - cbn [fmap list_fmap forallb] in Hok. apply andb_true_iff in Hok as [Hraw Hok].
    cbn [Parser.run fmap list_fmap segs_from].
    destruct (Parser.is_delimiter (normalize raw)) eqn:Hd.
    + destruct (step_delimiter _ _ _ raw Hinv Hd) as [s1 [Hs1 Hinv1]].
      rewrite Hs1.
      destruct (IH _ _ _ Hinv1 Hok) as (s' & front' & cur' & Hrun & Hinv' & Hsegs).
      exists s', front', cur'. split; [done|]. split; [done|].
      rewrite Hsegs, <- app_assoc. reflexivity.
    + destruct (step_line _ _ _ raw Hinv Hd Hraw) as [s1 [Hs1 Hinv1]].
      rewrite Hs1.
      destruct (IH _ _ _ Hinv1 Hok) as (s' & front' & cur' & Hrun & Hinv' & Hsegs).
      exists s', front', cur'. done.
Qed.

(** Reading the returned containers through the final store. *)
Lemma deref_nonempty_addrs segs : forall pre post,
  Parser.deref (pre ++ segs ++ post) <$> nonempty_addrs (length pre) segs
  = drop_empty segs.
Proof.
  induction segs as [|u segs IH]; intros pre post; [reflexivity|].
  specialize (IH (pre ++ [u]) post). rewrite length_app in IH. simpl in IH.
  rewrite Nat.add_1_r, <- app_assoc in IH. simpl in IH.
  change ((u :: segs) ++ post) with (u :: segs ++ post).
  destruct u as [|l u]; cbn [nonempty_addrs drop_empty].
  - exact IH.
  - rewrite fmap_cons, IH. unfold Parser.deref at 1.
    rewrite list_lookup_middle by done. reflexivity.
Qed.

Lemma deref_addr_bucket name segs : forall pre post,
  Parser.deref (pre ++ segs ++ post) <$> addr_bucket name (length pre) segs
  = bucket_of name segs.
Proof.
  induction segs as [|u segs IH]; intros pre post; [reflexivity|].
  specialize (IH (pre ++ [u]) post). rewrite length_app in IH. simpl in IH.
  rewrite Nat.add_1_r, <- app_assoc in IH. simpl in IH.
  change ((u :: segs) ++ post) with (u :: segs ++ post).
  cbn [addr_bucket bucket_of].
  rewrite fmap_app, IH, fmap_replicate. unfold Parser.deref at 1.
  rewrite list_lookup_middle by done. reflexivity.
Qed.

Lemma bucket_of_drop_empty name segs :
  bucket_of name (drop_empty segs) = bucket_of name segs.
Proof.
  induction segs as [|u segs IH]; [reflexivity|].
  destruct u; simpl; [exact IH | by rewrite IH].
Qed.

Lemma drop_empty_app a b : drop_empty (a ++ b) = drop_empty a ++ drop_empty b.
Proof.
  induction a as [|u a IH]; [reflexivity|]. destruct u; simpl; by rewrite ?IH.
Qed.

Lemma drop_empty_segs ls : forall cur,
  drop_empty (segs_from cur ls) = groups_from cur ls.
Proof.
  induction ls as [|l ls IH]; intros cur; simpl.
  - by destruct cur.
  - destruct (Parser.is_delimiter l); [|apply IH].
    destruct cur; simpl; by rewrite IH.
Qed.

Lemma segs_from_closed ls d : forall cur,
  Parser.is_delimiter d = true ->
  segs_from cur (ls ++ [d]) = segs_from cur ls ++ [[]].
Proof.
  induction ls as [|l ls IH]; intros cur Hd; simpl.
  - by rewrite Hd.
  - destruct (Parser.is_delimiter l); by rewrite IH.
Qed.

Lemma groups_from_closed ls d : forall cur,
  Parser.is_delimiter d = true ->
  groups_from cur (ls ++ [d]) = groups_from cur ls.
Proof.
  intros cur Hd. rewrite <- !drop_empty_segs, segs_from_closed by done.
  rewrite drop_empty_app. simpl. apply app_nil_r.
Qed.

Lemma drop_empty_nonempty segs : Forall (fun u => u ≠ []) (drop_empty segs).
Proof.
  induction segs as [|u segs IH]; [constructor|].
  destruct u; simpl; [exact IH | by constructor].
Qed.

Lemma nonempty_fmap {X Y} (f : X -> Y) (l : list X) :
  (fun b : list X => f <$> b) <$> nonempty l = nonempty (f <$> l).
Proof. by destruct l. Qed.

(** What [load_foon] returns on input without a bare [o] tag: the units
    list holds the non-empty list objects other than the current one, and
    the index holds every non-empty one, the current one included. *)
Lemma load_foon_run lines :
  well_formed (normalize <$> lines) = true ->
  exists front cur idx,
    Parser.load_foon lines = Ret (drop_empty front, idx)
    /\ front ++ [cur] = segs_from [] (normalize <$> lines)
    /\ forall name,
         idx !! name = nonempty (bucket_of name (groups (normalize <$> lines))).
Proof.
  intros Hok.
  destruct (run_inv lines [] [] Parser.init init_inv Hok)
    as (s & front & cur & Hrun & [Hst Hcu Hun Hix] & Hsegs).
  simpl in Hsegs.
  exists front, cur. eexists. unfold Parser.load_foon. rewrite Hrun.
  split; [|split; [exact Hsegs|]].
  - f_equal. f_equal. rewrite Hun, Hst.
    apply (deref_nonempty_addrs front [] [cur]).
  - intros name. rewrite lookup_fmap, Hix, nonempty_fmap, Hst.
    pose proof (deref_addr_bucket name (front ++ [cur]) [] []) as Hb.
    rewrite app_nil_r in Hb. simpl in Hb. rewrite Hb.
    unfold groups. rewrite <- drop_empty_segs, bucket_of_drop_empty, Hsegs.
    reflexivity.
Qed.

(** *** Every unit the parser builds is well formed *)

Lemma object_line_not_delimiter line :
  startswith line "o" = true -> Parser.is_delimiter line = false.
Proof.
  intros Ho. unfold startswith in Ho. apply prefix_app in Ho as [post ->].
  reflexivity.
Qed.

Lemma step_bare_tag s raw :
  line_ok (normalize raw) = false -> Parser.step s raw = Raise IndexError.
Proof.
  unfold line_ok, Parser.step. intros Hbad.
  destruct (startswith (normalize raw) "o") eqn:Ho; [|discriminate].
  rewrite (object_line_not_delimiter _ Ho).
  apply bool_decide_eq_false in Hbad. unfold subscript.
  unfold object_name in Hbad.
  destruct (split (normalize raw) !! 1); [|reflexivity].
  destruct Hbad. by eexists.
Qed.

Lemma step_returns s raw :
  line_ok (normalize raw) = true -> exists s', Parser.step s raw = Ret s'.
Proof.
  unfold line_ok, Parser.step. intros Hok.
  destruct (Parser.is_delimiter (normalize raw)); [by eexists|].
  destruct (startswith (normalize raw) "o"); [|by eexists].
  apply bool_decide_eq_true in Hok as [n Hn]. unfold object_name in Hn.
  unfold subscript. rewrite Hn. by eexists.
Qed.

(** The parser raises as soon as it meets a bare [o] tag. *)
Lemma run_bare_tag lines : forall s,
  well_formed (normalize <$> lines) = false -> Parser.run s lines = Raise IndexError.
Proof.
  induction lines as [|raw lines IH]; intros s Hbad; [discriminate|].
  cbn [fmap list_fmap] in Hbad. unfold well_formed in Hbad. cbn [forallb] in Hbad.
  cbn [Parser.run].
  destruct (line_ok (normalize raw)) eqn:Hraw.
  - destruct (step_returns s raw Hraw) as [s' ->]. by apply IH.
  - by rewrite (step_bare_tag s raw Hraw).
Qed.

Lemma segs_from_well_formed ls : forall cur,
  well_formed cur = true -> well_formed ls = true ->
  Forall (fun u => well_formed u = true) (segs_from cur ls).
Proof.
  induction ls as [|l ls IH]; intros cur Hcur Hls; simpl.
  - by constructor.
  - unfold well_formed in Hls. cbn [forallb] in Hls.
    apply andb_true_iff in Hls as [Hl Hls].
    destruct (Parser.is_delimiter l).
    + constructor; [done | by apply IH].
    + apply IH; [|done]. unfold well_formed in *. rewrite forallb_app. simpl.
      by rewrite Hcur, Hl.
Qed.

Lemma Forall_drop_empty (P : Unit -> Prop) segs :
  Forall P segs -> Forall P (drop_empty segs).
Proof.
  induction 1 as [|u segs Hu _ IH]; [constructor|].
  destruct u; simpl; [exact IH | by constructor].
Qed.

Lemma Forall_bucket_of (P : Unit -> Prop) name us :
  Forall P us -> Forall P (bucket_of name us).
Proof.
  induction 1 as [|u us Hu _ IH]; [constructor|].
  simpl. apply Forall_app. split; [|exact IH].
  by apply Forall_replicate.
Qed.

(** Whatever [load_foon] returns, in the list of units or in a bucket of
    the index, is a unit whose [o] lines all carry a name. *)
Lemma load_foon_well_formed lines us idx :
  Parser.load_foon lines = Ret (us, idx) ->
  Forall (fun u => well_formed u = true) us
  /\ forall name bucket, idx !! name = Some bucket ->
       Forall (fun u => well_formed u = true) bucket.
Proof.
  intros Hload.
  destruct (well_formed (normalize <$> lines)) eqn:Hwf.
  - destruct (load_foon_run lines Hwf) as (front & cur & idx' & Hload' & Hsegs & Hidx).
    rewrite Hload in Hload'. injection Hload' as -> ->.
    pose proof (segs_from_well_formed (normalize <$> lines) [] eq_refl Hwf) as Hall.
    split.
    + rewrite <- Hsegs in Hall. apply Forall_app in Hall as [Hfront _].
      by apply Forall_drop_empty.
    + intros name bucket Hb. rewrite Hidx in Hb.
      assert (Hbucket : Forall (fun u => well_formed u = true)
                          (bucket_of name (groups (normalize <$> lines)))).
      { apply Forall_bucket_of. unfold groups. rewrite <- drop_empty_segs.
        by apply Forall_drop_empty. }
      destruct (bucket_of name _); [discriminate|]. by injection Hb as <-.
  - unfold Parser.load_foon in Hload.
    rewrite (run_bare_tag lines Parser.init Hwf) in Hload. discriminate.
Qed.

(** *** The text of a stored line *)

Lemma word_not_space c : isword c = true -> isspace c = false.
Proof. destruct c as [[] [] [] [] [] [] [] []]; vm_compute; congruence. Qed.

Lemma isspace_lower c : isspace (lower_char c) = isspace c.
Proof. destruct c as [[] [] [] [] [] [] [] []]; vm_compute; reflexivity. Qed.

Lemma isword_lower c : isword (lower_char c) = isword c.
Proof. destruct c as [[] [] [] [] [] [] [] []]; vm_compute; reflexivity. Qed.

Lemma lower_char_idem c : lower_char (lower_char c) = lower_char c.
Proof. destruct c as [[] [] [] [] [] [] [] []]; vm_compute; reflexivity. Qed.

Lemma Forall_remove_punctuation cs :
  Forall (fun c => isword c = true \/ isspace c = true) (remove_punctuation cs).
Proof.
  induction cs as [|c cs IH]; [constructor|].
  unfold remove_punctuation in *. simpl.
  destruct (isword c || isspace c) eqn:Hc; [|exact IH].
  constructor; [|exact IH]. by apply orb_true_iff.
Qed.

Lemma Forall_lstrip (P : ascii -> Prop) cs : Forall P cs -> Forall P (lstrip cs).
Proof.
  induction 1 as [|c cs Hc Hcs IH]; [constructor|].
  simpl. destruct (isspace c); [exact IH | by constructor].
Qed.

Lemma Forall_strip (P : ascii -> Prop) cs : Forall P cs -> Forall P (strip cs).
Proof.
  intros H. unfold strip, rstrip.
  apply Forall_rev, Forall_lstrip, Forall_rev, Forall_lstrip, H.
Qed.

Lemma Forall_collapse (P : ascii -> Prop) cs : forall b,
  P " "%char -> Forall P cs -> Forall P (collapse b cs).
Proof.
  intros b Hsp H. revert b. induction H as [|c cs Hc Hcs IH]; intros b; [constructor|].
  simpl. destruct (isspace c); [destruct b|]; try constructor; auto.
Qed.

Lemma collapse_spaces cs : forall b,
  Forall (fun c => isspace c = true -> c = " "%char) (collapse b cs).
Proof.
  induction cs as [|c cs IH]; intros b; [constructor|].
  simpl. destruct (isspace c) eqn:Hc; [destruct b|]; try constructor; auto.
  congruence.
Qed.

Lemma collapse_single_spaced cs : forall b,
  single_spaced (collapse b cs) = true
  /\ (b = true -> head (collapse b cs) ≠ Some " "%char).
Proof.
  induction cs as [|c cs IH]; intros b; [done|].
  cbn [collapse]. destruct (isspace c) eqn:Hc.
  - destruct (IH true) as [Hs Hh]. destruct b; [done|].
    split; [|discriminate].
    cbn [single_spaced]. destruct (collapse true cs) as [|d rest] eqn:Hr; [done|].
    rewrite Hs, andb_true_r. simpl.
    destruct (Ascii.eqb_spec d " ") as [->|]; [|done].
    by destruct (Hh eq_refl).
  - destruct (IH false) as [Hs _].
    assert (Hne : Ascii.eqb c " " = false).
    { destruct (Ascii.eqb_spec c " ") as [->|]; [discriminate Hc | done]. }
    split.
    + cbn [single_spaced]. destruct (collapse false cs) as [|d rest]; [done|].
      by rewrite Hne, Hs.
    + intros _. simpl. intros [= ->]. discriminate Hc.
Qed.

Lemma of_to_string cs : of_string (to_string cs) = cs.
Proof. apply list_ascii_of_string_of_list_ascii. Qed.

(** Lines 23-24: what is left of a line is made of word characters
    separated by single spaces, and has no upper-case letter. *)
Lemma normalize_shape raw :
  Forall plain (of_string (normalize raw))
  /\ Forall (fun c => lower_char c = c) (of_string (normalize raw))
  /\ single_spaced (of_string (normalize raw)) = true.
Proof.
  unfold normalize, normalize_chars. rewrite of_to_string.
  set (kept := strip (remove_punctuation (of_string raw))).
  assert (Hkept : Forall (fun c => isword c = true \/ isspace c = true) kept)
    by apply Forall_strip, Forall_remove_punctuation.
  split; [|split].
  - assert (H1 : Forall (fun c => isword c = true \/ isspace c = true)
                   (collapse false (lower kept))).
    { apply Forall_collapse; [by right|].
      unfold lower. apply Forall_fmap. eapply Forall_impl; [exact Hkept|].
      intros c Hc. simpl. by rewrite isword_lower, isspace_lower. }
    pose proof (collapse_spaces (lower kept) false) as H2.
    rewrite Forall_forall in *. intros c Hc.
    destruct (H1 c Hc) as [Hw|Hs]; [by right | left; by apply H2].
  - apply Forall_collapse; [reflexivity|].
    unfold lower. apply Forall_fmap, Forall_true. intros c. apply lower_char_idem.
  - apply collapse_single_spaced.
Qed.

(** A line without any word character, such as a blank line or a line
    holding only a backslash or slashes, comes out empty and ends the
    unit being read. *)
Lemma lstrip_spaces cs : Forall (fun c => isspace c = true) cs -> lstrip cs = [].
Proof. induction 1 as [|c cs Hc _ IH]; [done|]. simpl. by rewrite Hc. Qed.

Lemma delimiter_without_word raw :
  Forall (fun c => isword c = false) (of_string raw) ->
  Parser.is_delimiter (normalize raw) = true.
Proof.
  intros H. unfold Parser.is_delimiter, normalize, normalize_chars.
  assert (Hsp : Forall (fun c => isspace c = true) (remove_punctuation (of_string raw))).
  { induction H as [|c cs Hc _ IH]; [constructor|].
    unfold remove_punctuation in *. simpl. rewrite Hc. simpl.
    destruct (isspace c) eqn:Hs; [by constructor | exact IH]. }
  unfold strip. rewrite (lstrip_spaces _ Hsp). reflexivity.
Qed.

Lemma lstrip_keeps c cs : In c cs -> isspace c = false -> In c (lstrip cs).
Proof.
  intros Hin Hc. induction cs as [|d cs IH]; [done|]. simpl.
  destruct (isspace d) eqn:Hd; [|done].
  destruct Hin as [->|Hin]; [congruence | by apply IH].
Qed.

Lemma collapse_keeps c cs : forall b,
  In c cs -> isspace c = false -> In c (collapse b cs).
Proof.
  induction cs as [|d cs IH]; intros b Hin Hc; [done|].
  destruct Hin as [<-|Hin]; simpl.
  - rewrite Hc. by left.
  - destruct (isspace d); [destruct b|]; try right; by apply IH.
Qed.

(** A line with a word character is kept as a line of a unit. *)
Lemma line_with_word raw c :
  In c (of_string raw) -> isword c = true ->
  Parser.is_delimiter (normalize raw) = false.
Proof.
  intros Hin Hw.
  assert (Hs : isspace c = false) by by apply word_not_space.
  assert (Hn : In (lower_char c) (normalize_chars (of_string raw))).
  { unfold normalize_chars. apply collapse_keeps; [|by rewrite isspace_lower].
    unfold lower. apply List.in_map.
    unfold strip, rstrip. apply List.in_rev. rewrite List.rev_involutive.
    apply lstrip_keeps; [|done].
    apply -> List.in_rev. apply lstrip_keeps; [|done].
    unfold remove_punctuation. apply List.filter_In.
    split; [done | by rewrite Hw]. }
  destruct (normalize_shape raw) as [Hplain _].
  unfold Parser.is_delimiter. apply orb_false_iff.
  split; apply bool_decide_eq_false; intros Heq.
  - rewrite Heq in Hplain. apply Forall_cons in Hplain as [[Hb|Hb] _]; discriminate.
  - unfold normalize in Heq.
    destruct (normalize_chars (of_string raw)); [done | discriminate].
Qed.

Lemma delimiter_iff raw :
  Parser.is_delimiter (normalize raw) = true
  <-> Forall (fun c => isword c = false) (of_string raw).
Proof.
  split; [|apply delimiter_without_word].
  intros Hd. apply List.Forall_forall. intros c Hc.
  destruct (isword c) eqn:Hw; [|done].
  rewrite (line_with_word raw c Hc Hw) in Hd. discriminate.
Qed.

(** *** The text of an ASCII line *)

Lemma lstrip_starts cs : starts_trimmed (lstrip cs).
Proof.
  induction cs as [|c cs IH]; [done|]. simpl.
  destruct (isspace c) eqn:Hc; [exact IH | exact Hc].
Qed.

Lemma lstrip_snoc c : forall cs,
  isspace c = false -> exists rest, lstrip (cs ++ [c]) = rest ++ [c].
Proof.
  intros cs Hc. induction cs as [|d cs IH]; simpl.
  - rewrite Hc. by exists [].
  - destruct (isspace d); [exact IH | by exists (d :: cs)].
Qed.

Lemma rstrip_ends cs : ends_trimmed (rstrip cs).
Proof.
  unfold rstrip. pose proof (lstrip_starts (rev cs)) as Hs.
  destruct (lstrip (rev cs)) as [|c rest]; [by left|].
  right. exists (rev rest), c. split; [reflexivity | exact Hs].
Qed.

Lemma rstrip_starts cs : starts_trimmed cs -> starts_trimmed (rstrip cs).
Proof.
  destruct cs as [|c cs]; [done|]. simpl. intros Hc. unfold rstrip. simpl.
  destruct (lstrip_snoc c (rev cs) Hc) as [rest ->].
  rewrite rev_app_distr. exact Hc.
Qed.

Lemma split_from_snoc_space c cs : forall cur,
  isspace c = true -> split_from cur (cs ++ [c]) = split_from cur cs.
Proof.
  induction cs as [|d cs IH]; intros cur Hc; simpl.
  - rewrite Hc. by destruct cur.
  - destruct (isspace d); [destruct cur|]; by rewrite IH.
Qed.

Lemma split_from_lstrip cs : split_from [] (lstrip cs) = split_from [] cs.
Proof.
  induction cs as [|c cs IH]; [reflexivity|]. simpl.
  destruct (isspace c) eqn:Hc; [exact IH|]. simpl. by rewrite Hc.
Qed.

Lemma rstrip_snoc c cs :
  rstrip (cs ++ [c]) = if isspace c then rstrip cs else cs ++ [c].
Proof.
  unfold rstrip. rewrite rev_app_distr. simpl.
  destruct (isspace c); [reflexivity|]. simpl. by rewrite rev_involutive.
Qed.

Lemma split_from_rstrip cs : forall cur,
  split_from cur (rstrip cs) = split_from cur cs.
Proof.
  induction cs as [|c cs IH] using rev_ind; intros cur; [reflexivity|].
  rewrite rstrip_snoc. destruct (isspace c) eqn:Hc; [|reflexivity].
  by rewrite IH, split_from_snoc_space.
Qed.

Lemma split_from_strip cs : split_from [] (strip cs) = split_from [] cs.
Proof. unfold strip. by rewrite split_from_rstrip, split_from_lstrip. Qed.

Lemma split_from_lower cs : forall cur,
  split_from (lower cur) (lower cs) = List.map lower (split_from cur cs).
Proof.
  induction cs as [|c cs IH]; intros cur; simpl.
  - by destruct cur.
  - rewrite isspace_lower. destruct (isspace c).
    + destruct cur as [|d cur]; simpl; [apply (IH [])|].
      f_equal. apply (IH []).
    + rewrite <- IH. unfold lower. by rewrite map_app.
Qed.

Lemma split_from_nil cs : forall cur,
  split_from cur cs = [] -> cur = [] /\ Forall (fun c => isspace c = true) cs.
Proof.
  induction cs as [|c cs IH]; intros cur; simpl.
  - destruct cur; [done | discriminate].
  - destruct (isspace c) eqn:Hc.
    + destruct cur; [|discriminate]. intros H. destruct (IH [] H) as [_ Hcs].
      split; [done | by constructor].
    + intros H. destruct (IH _ H) as [Hcur _]. by destruct cur.
Qed.

Lemma join_chars_cons p ps :
  ps ≠ [] -> join_chars (p :: ps) = p ++ " "%char :: join_chars ps.
Proof. by destruct ps. Qed.

(** On a text without whitespace at its end, collapsing the runs of
    whitespace is joining the tokens by single spaces. *)
Lemma collapse_join cs :
  ends_trimmed cs ->
  (forall cur, cur ≠ [] \/ starts_trimmed cs ->
     cur ++ collapse false cs = join_chars (split_from cur cs))
  /\ collapse true cs = join_chars (split_from [] cs).
Proof.
  induction cs as [|c cs IH]; intros Hend.
  - split; [|reflexivity]. intros cur _. simpl. rewrite app_nil_r. by destruct cur.
  - assert (Hcs : isspace c = true -> cs ≠ [] /\ ends_trimmed cs).
    { intros Hc. destruct Hend as [|(init & d & Heq & Hd)]; [done|].
      destruct init as [|e init]; simpl in Heq.
      - injection Heq as -> ->. congruence.
      - injection Heq as -> ->. split; [by destruct init|].
        right. by exists init, d. }
    assert (Hcs' : isspace c = false -> ends_trimmed cs).
    { intros Hc. destruct Hend as [|(init & d & Heq & Hd)]; [done|].
      destruct init as [|e init]; simpl in Heq.
      - injection Heq as -> ->. by left.
      - injection Heq as -> ->. right. by exists init, d. }
    split.
    + intros cur Hcur. cbn [collapse split_from].
      destruct (isspace c) eqn:Hc.
      * destruct (Hcs eq_refl) as [Hne Hend'].
        destruct (IH Hend') as [_ IHt].
        destruct cur as [|d cur]; [destruct Hcur as [?|Hs]; [done|simpl in Hs; congruence]|].
        rewrite join_chars_cons.
        -- by rewrite IHt.
        -- intros Hnil. apply split_from_nil in Hnil as [_ Hall].
           destruct Hend' as [->|(init & e & -> & He)]; [done|].
           apply Forall_app in Hall as [_ Hall].
           apply Forall_cons in Hall as [Hall _]. congruence.
      * destruct (IH (Hcs' eq_refl)) as [IHs _].
        rewrite <- IHs by (left; by destruct cur).
        by rewrite <- app_assoc.
    + cbn [collapse split_from]. destruct (isspace c) eqn:Hc.
      * destruct (Hcs eq_refl) as [_ Hend']. by apply IH.
      * destruct (IH (Hcs' eq_refl)) as [IHs _].
        change ([] ++ [c]) with [c]. rewrite <- (IHs [c]) by (by left). reflexivity.
Qed.

Lemma to_string_app a b : to_string (a ++ b) = (to_string a ++ to_string b)%string.
Proof. induction a as [|c a IH]; simpl; [reflexivity|]. by rewrite IH. Qed.

Lemma to_string_join_chars parts :
  to_string (join_chars parts) = join " " (to_string <$> parts).
Proof.
  induction parts as [|p [|q ps] IH]; [reflexivity | reflexivity|].
  change (join_chars (p :: q :: ps)) with (p ++ " "%char :: join_chars (q :: ps)).
  rewrite to_string_app. cbn [to_string string_of_list_ascii].
  fold (to_string (join_chars (q :: ps))). rewrite IH. reflexivity.
Qed.

(** Lines 23-24 keep the tokens of the line without its punctuation,
    lower-cased, and put single spaces between them. *)
Lemma normalize_chars_tokens cs :
  normalize_chars cs
  = join_chars (List.map lower (split_from [] (remove_punctuation cs))).
Proof.
  unfold normalize_chars. set (p := remove_punctuation cs).
  pose proof (rstrip_starts (lstrip p) (lstrip_starts p)) as Hs.
  pose proof (rstrip_ends (lstrip p)) as He. fold (strip p) in Hs, He.
  assert (He' : ends_trimmed (lower (strip p))).
  { destruct He as [->|(init & c & -> & Hc)]; [by left|].
    right. exists (lower init), (lower_char c). unfold lower.
    by rewrite map_app, isspace_lower. }
  assert (Hs' : starts_trimmed (lower (strip p))).
  { destruct (strip p) as [|c rest]; [done|]. simpl in *. by rewrite isspace_lower. }
  destruct (collapse_join _ He') as [H _].
  specialize (H [] (or_intror Hs')). simpl in H. rewrite H.
  by rewrite (split_from_lower _ []), split_from_strip.
Qed.

Lemma ascii_tables c :
  is_ascii c = true ->
  isword c = ascii_word c /\ lower_char c = ascii_lower c
  /\ is_ascii (lower_char c) = true
  /\ (isword c = true -> lower_char c = c -> lower_word c = true).
Proof. destruct c as [[] [] [] [] [] [] [] []]; vm_compute; intuition congruence. Qed.

Lemma ascii_text_Forall s :
  ascii_text s <-> Forall (fun c => is_ascii c = true) (of_string s).
Proof. unfold ascii_text. by rewrite List.forallb_forall, List.Forall_forall. Qed.

Lemma Forall_split_from (P : ascii -> Prop) cs : forall cur,
  Forall P cur -> Forall P cs -> Forall (Forall P) (split_from cur cs).
Proof.
  induction cs as [|c cs IH]; intros cur Hcur Hcs; simpl.
  - destruct cur; [constructor|]. constructor; [done | constructor].
  - apply Forall_cons in Hcs as [Hc Hcs]. destruct (isspace c).
    + destruct cur; [by apply IH|]. constructor; [done | by apply IH].
    + apply IH; [|done]. apply Forall_app. by repeat constructor.
Qed.

Lemma Forall_filter_chars (P : ascii -> Prop) f cs :
  Forall P cs -> Forall P (List.filter f cs).
Proof.
  induction 1 as [|c cs Hc _ IH]; simpl; [constructor|].
  destruct (f c); [by constructor | done].
Qed.

Lemma filter_ext_Forall (f g : ascii -> bool) cs :
  Forall (fun c => f c = g c) cs -> List.filter f cs = List.filter g cs.
Proof. induction 1 as [|c cs Hc _ IH]; simpl; [done|]. by rewrite Hc, IH. Qed.

Lemma map_ext_Forall (f g : ascii -> ascii) cs :
  Forall (fun c => f c = g c) cs -> List.map f cs = List.map g cs.
Proof. induction 1 as [|c cs Hc _ IH]; simpl; [done|]. by rewrite Hc, IH. Qed.

(** What is stored for an ASCII line is the line as described. *)
Lemma normalize_described raw : ascii_text raw -> normalize raw = described_line raw.
Proof.
  intros Hraw%ascii_text_Forall.
  unfold normalize, described_line, split. rewrite normalize_chars_tokens.
  rewrite to_string_join_chars, of_to_string. f_equal.
  assert (Hf : remove_punctuation (of_string raw)
               = List.filter (fun c => ascii_word c || isspace c) (of_string raw)).
  { unfold remove_punctuation. apply filter_ext_Forall.
    eapply Forall_impl; [exact Hraw|]. intros c Hc. simpl.
    by rewrite (proj1 (ascii_tables c Hc)). }
  rewrite <- Hf.
  assert (Htok : Forall (Forall (fun c => is_ascii c = true))
                   (split_from [] (remove_punctuation (of_string raw)))).
  { apply Forall_split_from; [constructor|]. by apply Forall_filter_chars. }
  induction Htok as [|t ts Ht _ IH]; [reflexivity|].
  cbn [List.map fmap list_fmap]. f_equal; [|exact IH].
  unfold lowered. rewrite of_to_string. f_equal. unfold lower.
  apply map_ext_Forall. eapply Forall_impl; [exact Ht|].
  intros c Hc. simpl. apply (ascii_tables c Hc).
Qed.

Lemma normalize_ascii raw : ascii_text raw -> ascii_text (normalize raw).
Proof.
  rewrite !ascii_text_Forall. intros Hraw.
  unfold normalize, normalize_chars. rewrite of_to_string.
  apply Forall_collapse; [reflexivity|].
  unfold lower. apply Forall_fmap.
  eapply Forall_impl; [apply Forall_strip, Forall_filter_chars, Hraw|].
  intros c Hc. simpl. apply (ascii_tables c Hc).
Qed.

(** An ASCII line is stored as lower-case letters, digits, underscores
    and spaces. *)
Lemma normalize_lower_words raw :
  ascii_text raw ->
  Forall (fun c => c = " "%char \/ lower_word c = true) (of_string (normalize raw)).
Proof.
  intros Hraw. pose proof (normalize_ascii raw Hraw) as Ha%ascii_text_Forall.
  destruct (normalize_shape raw) as (Hplain & Hlow & _).
  rewrite Forall_forall in *. intros c Hc.
  destruct (Hplain c Hc) as [->|Hw]; [by left|]. right.
  by apply (ascii_tables c (Ha c Hc)); [|apply Hlow].
Qed.

Lemma lower_not_capital c : is_ascii c = true -> capital (lower_char c) = false.
Proof. destruct c as [[] [] [] [] [] [] [] []]; vm_compute; congruence. Qed.

Example recipe_ascii : Forall ascii_text Recipe.lines.
Proof. repeat constructor. Qed.

(** C10 (as stated, it fails on two kinds of input).  A file that does
    not end with a delimiter line: the last run of lines is in the index
    but not in the list of units.  A file with a line that starts with
    [o] and has a single token: the parser raises [IndexError]. *)
Lemma load_foon_open_or_bare :
  Parser.load_foon ["O onion 1"; "S chopped"]
    = Ret ([], {[ "onion" := [["o onion 1"; "s chopped"]] ]})
  /\ groups (normalize <$> ["O onion 1"; "S chopped"]) = [["o onion 1"; "s chopped"]]
  /\ ~ (exists us idx,
          Parser.load_foon ["O onion 1"; "S chopped"] = Ret (us, idx)
          /\ us = groups (normalize <$> ["O onion 1"; "S chopped"]))
  /\ Parser.load_foon ["//"; "onion"; "//"] = Raise IndexError.
Proof.
  split; [vm_compute; reflexivity|]. split; [vm_compute; reflexivity|].
  split; [|vm_compute; reflexivity].
  intros (us & idx & Hload & Hus). vm_compute in Hload, Hus.
  injection Hload as Hnil _. congruence.
Qed.

(** C10, amended.  For every input in which each line that starts with
    [o] after normalization has a second token, and which ends with a
    delimiter line: every line is normalized (punctuation removed,
    lower-cased, whitespace runs collapsed to one space), so that no
    stored line has two spaces in a row and a line of ASCII characters is
    stored as its whitespace-separated tokens, without their punctuation
    characters and with [A] to [Z] lower-cased, joined by single spaces,
    which leaves lower-case letters, digits, underscores and spaces only;
    a line is a delimiter exactly when it has no word character (a blank
    line, a backslash-only line), the units are the maximal runs of
    consecutive non-delimiter lines, none of them empty, and the bucket
    of each name holds, in order, each unit once per object line of the
    unit that carries the name. *)
Theorem load_foon_spec (lines : list string) :
  well_formed (normalize <$> lines) = true ->
  closed_input lines ->
  exists us idx,
    Parser.load_foon lines = Ret (us, idx)
    /\ us = groups (normalize <$> lines)
    /\ Forall (fun u => u ≠ []) us
    /\ (forall name, idx !! name = nonempty (bucket_of name us))
    /\ (forall raw,
          single_spaced (of_string (normalize raw)) = true
          /\ (Parser.is_delimiter (normalize raw) = true
              <-> Forall (fun c => isword c = false) (of_string raw))
          /\ (ascii_text raw ->
              normalize raw = described_line raw
              /\ Forall (fun c => c = " "%char \/ lower_word c = true)
                        (of_string (normalize raw)))).
Proof.
  intros Hok Hclosed.
  destruct (load_foon_run lines Hok) as (front & cur & idx & Hload & Hsegs & Hidx).
  assert (Hunits : drop_empty front = groups (normalize <$> lines)).
  { destruct Hclosed as [->|(body & last & -> & Hd)].
    - simpl in Hsegs. destruct front as [|? [|? ?]]; by inversion Hsegs.
    - rewrite fmap_app in *. simpl in *.
      rewrite segs_from_closed in Hsegs by done.
      apply app_inj_tail in Hsegs as [-> _].
      unfold groups. rewrite groups_from_closed by done.
      apply drop_empty_segs. }
  exists (drop_empty front), idx. split; [exact Hload|].
  split; [exact Hunits|]. split; [apply drop_empty_nonempty|].
  split; [intros name; rewrite Hunits; apply Hidx|].
  intros raw. split; [|split].
  - unfold normalize, normalize_chars. rewrite of_to_string.
    apply collapse_single_spaced.
  - apply delimiter_iff.
  - intros Hraw. split; [by apply normalize_described | by apply normalize_lower_words].
Qed.

(** The sample FOON ends with a delimiter and parses into its two
    units; its first line is stored as its two tokens in lower case. *)
Lemma load_foon_spec_witness :
  well_formed (normalize <$> Recipe.lines) = true
  /\ closed_input Recipe.lines
  /\ (exists us idx,
        Parser.load_foon Recipe.lines = Ret (us, idx)
        /\ us = [Recipe.with_knife; Recipe.by_hand])
  /\ normalize "  O1   Onion,  1 " = "o1 onion 1".
Proof.
  assert (Hok : well_formed (normalize <$> Recipe.lines) = true)
    by (vm_compute; reflexivity).
  assert (Hclosed : closed_input Recipe.lines).
  { right. exists (removelast Recipe.lines), "//". split; vm_compute; reflexivity. }
  split; [exact Hok|]. split; [exact Hclosed|].
  destruct (load_foon_spec Recipe.lines Hok Hclosed)
    as (us & idx & Hload & Hus & _ & _ & Hraw).
  split.
  - exists us, idx. split; [exact Hload|]. rewrite Hus. vm_compute. reflexivity.
  - destruct (Hraw "  O1   Onion,  1 ") as (_ & _ & Hascii).
    destruct (Hascii eq_refl) as [-> _]. vm_compute. reflexivity.
Defined.

(** * Further properties of the searches *)

Lemma find_split {X} (accept : X -> bool) (xs : list X) :
  match List.find accept xs with
  | Some u => exists pre post, xs = pre ++ u :: post /\ accept u = true
                               /\ Forall (fun x => accept x = false) pre
  | None => Forall (fun x => accept x = false) xs
  end.
Proof.
  induction xs as [|x xs IH]; simpl; [constructor|].
  destruct (accept x) eqn:Hx.
  - exists [], xs. split; [reflexivity|]. split; [done | constructor].
  - destruct (List.find accept xs) as [u|].
    + destruct IH as (pre & post & -> & Hu & Hpre).
      exists (x :: pre), post. split; [reflexivity|]. split; [done|].
      by constructor.
    + by constructor.
Qed.

Lemma first_result_find {X} (f : X -> result (option X)) (accept : X -> bool) xs :
  Forall (fun x => f x = Ret (if accept x then Some x else None)) xs ->
  first_result f xs = Ret (List.find accept xs).
Proof.
  induction 1 as [|x xs Hx _ IH]; [reflexivity|].
  simpl. rewrite Hx. destruct (accept x); [reflexivity | exact IH].
Qed.

(** The test [depth_limited_search] applies to a unit. *)
Lemma dls_visit_result_well_formed g st u s :
  well_formed u = true ->
  dls_visit_result g st u s
  = Ret (if existsb (names_object g) u && existsb (shows_state st) u
            && bool_decide (missing (kitchen s) u = [])
         then Some u else None).
Proof.
  intros Hwf. unfold dls_visit_result, matches_result, available_result.
  rewrite Hwf. simpl.
  destruct (existsb (names_object g) u && existsb (shows_state st) u); [|reflexivity].
  simpl. destruct (missing (kitchen s) u); reflexivity.
Qed.

(** X1.  On a bucket of well-formed units, [depth_limited_search] at a
    non-zero depth returns the first unit of the goal's bucket that the
    goal matcher accepts and whose objects are all in the kitchen, every
    earlier unit failing one of the two tests; it returns [None] exactly
    when no unit of the bucket passes both. *)
Theorem depth_limited_search_first_available
    (goal_object goal_state : string) (depth : Z) (w : World) (bucket : list Unit) :
  depth ≠ 0%Z ->
  unit_to_objects (self w) !! goal_object = Some bucket ->
  Forall (fun u => well_formed u = true) bucket ->
  let passes u :=
    eval (unit_matches_goal u goal_object goal_state) w = Ret true
    /\ eval (available_in_kitchen u) w = Ret PyTrue in
  (exists u pre post,
     eval (depth_limited_search goal_object goal_state depth) w = Ret (Some u)
     /\ bucket = pre ++ u :: post /\ passes u /\ Forall (fun v => ~ passes v) pre)
  \/ (eval (depth_limited_search goal_object goal_state depth) w = Ret None
      /\ Forall (fun v => ~ passes v) bucket).
Proof.
  intros Hd Hb Hwf passes.
  rewrite (proj1 (computes_dls goal_object goal_state depth Hd w)).
  unfold dls_result. rewrite Hb.
  set (accept u := existsb (names_object goal_object) u
                   && existsb (shows_state goal_state) u
                   && bool_decide (missing (kitchen (self w)) u = [])).
  assert (Hpass : forall u, well_formed u = true -> (passes u <-> accept u = true)).
  { intros u Hu. unfold passes, accept, eval.
    rewrite unit_matches_goal_run, available_in_kitchen_run, Hu. simpl.
    rewrite andb_true_iff, bool_decide_eq_true. split.
    - intros [[= ->] Hm]. split; [done|].
      by destruct (missing (kitchen (self w)) u).
    - intros [-> ->]. done. }
  rewrite (first_result_find _ accept).
  - pose proof (find_split accept bucket) as Hfind.
    destruct (List.find accept bucket) as [u|].
    + left. destruct Hfind as (pre & post & -> & Hu & Hpre).
      apply Forall_app in Hwf as [Hwpre Hwrest].
      apply Forall_cons in Hwrest as [Hwu _].
      exists u, pre, post. split; [done|]. split; [done|].
      split; [by apply Hpass|].
      rewrite Forall_forall in *. intros v Hv Hp.
      apply Hpass in Hp; [|by apply Hwpre]. rewrite (Hpre v Hv) in Hp. discriminate.
    + right. split; [done|].
      rewrite Forall_forall in *. intros v Hv Hp.
      apply Hpass in Hp; [|by apply Hwf]. rewrite (Hfind v Hv) in Hp. discriminate.
  - eapply Forall_impl; [exact Hwf|]. intros u Hu. simpl.
    by apply dls_visit_result_well_formed.
Qed.

(** In the sample FOON with onion only, the first unit that passes is the
    third of the bucket. *)
Lemma depth_limited_search_first_available_witness :
  exists u pre post,
    eval (depth_limited_search "onion" "chopped" 1) (Recipe.world {[ "onion" ]} ∅)
      = Ret (Some u)
    /\ [Recipe.with_knife; Recipe.with_knife; Recipe.by_hand; Recipe.by_hand]
       = pre ++ u :: post
    /\ length pre = 2.
Proof.
  destruct (depth_limited_search_first_available "onion" "chopped" 1
              (Recipe.world {[ "onion" ]} ∅)
              [Recipe.with_knife; Recipe.with_knife; Recipe.by_hand; Recipe.by_hand])
    as [(u & pre & post & He & Hb & Hu & Hpre) | [He _]].
  - discriminate.
  - vm_compute. reflexivity.
  - repeat constructor.
  - exists u, pre, post. split; [exact He|]. split; [exact Hb|].
    vm_compute in He. injection He as <-.
    destruct pre as [|a [|b [|c pre]]]; try reflexivity.
    + injection Hb as Hb _. destruct Hu as [_ Hu]. rewrite <- Hb in Hu.
      vm_compute in Hu. discriminate.
    + injection Hb as _ Hb _. destruct Hu as [_ Hu]. rewrite <- Hb in Hu.
      vm_compute in Hu. discriminate.
    + exfalso. injection Hb as _ _ Hb _.
      apply Forall_cons in Hpre as [_ Hpre]. apply Forall_cons in Hpre as [_ Hpre].
      apply Forall_cons in Hpre as [Hc _]. apply Hc. rewrite <- Hb.
      split; vm_compute; reflexivity.
  - vm_compute in He. discriminate.
Defined.

Lemma first_result_none {X R} (f : X -> result (option R)) xs :
  first_result f xs = Ret None -> Forall (fun x => f x = Ret None) xs.
Proof.
  induction xs as [|x xs IH]; [constructor|]. simpl.
  destruct (f x) as [[v|]|e] eqn:Hx; try discriminate.
  intros H. constructor; [exact Hx | by apply IH].
Qed.

Lemma first_result_all_none {X R} (f : X -> result (option R)) xs :
  Forall (fun x => f x = Ret None) xs -> first_result f xs = Ret None.
Proof. induction 1 as [|x xs Hx _ IH]; [reflexivity|]. simpl. by rewrite Hx. Qed.

Lemma first_result_returns {X R} (f : X -> result (option R)) xs :
  Forall (fun x => exists r, f x = Ret r) xs -> exists r, first_result f xs = Ret r.
Proof.
  induction 1 as [|x xs [r Hx] _ IH]; [by eexists|]. simpl. rewrite Hx.
  destruct r; [by eexists | exact IH].
Qed.

Lemma a_star_visit_result_plain g st u s :
  well_formed u = true -> first_line_named u -> no_zero_rate (motion_data s) ->
  a_star_visit_result g st u s
  = Ret (if existsb (names_object g) u && existsb (shows_state st) u
         then Some u else None).
Proof.
  intros Hwf (line & motion & Hl & Hm) Hnz.
  unfold a_star_visit_result, matches_result. rewrite Hwf. simpl.
  destruct (existsb (names_object g) u && existsb (shows_state st) u); [|reflexivity].
  unfold subscript at 1.
  change (u !! 0) with (@lookup nat string (list string) _ 0 u) in Hl.
  replace (u !! 0) with (Some line). simpl.
  unfold subscript. rewrite Hm. simpl. unfold true_div.
  destruct (motion_data s !! motion) as [r|] eqn:Hr; simpl.
  - by rewrite (Hnz _ _ Hr).
  - reflexivity.
Qed.

(** X2.  Where the units of the goal's bucket are well formed and start
    with a line of two tokens, and no rate of the motion table is zero,
    [a_star_search] returns the first unit of the bucket that the goal
    matcher accepts, whatever the kitchen holds, and [None] exactly when
    the matcher accepts no unit of the bucket. *)
Theorem a_star_search_first_match
    (goal_object goal_state : string) (w : World) (bucket : list Unit) :
  unit_to_objects (self w) !! goal_object = Some bucket ->
  Forall (fun u => well_formed u = true /\ first_line_named u) bucket ->
  no_zero_rate (motion_data (self w)) ->
  let matches u := eval (unit_matches_goal u goal_object goal_state) w = Ret true in
  (exists u pre post,
     eval (a_star_search goal_object goal_state) w = Ret (Some u)
     /\ bucket = pre ++ u :: post /\ matches u /\ Forall (fun v => ~ matches v) pre)
  \/ (eval (a_star_search goal_object goal_state) w = Ret None
      /\ Forall (fun v => ~ matches v) bucket).
Proof.
  intros Hb Hok Hnz matches.
  rewrite (proj1 (computes_a_star goal_object goal_state w)).
  unfold a_star_result. rewrite Hb.
  set (accept u := existsb (names_object goal_object) u
                   && existsb (shows_state goal_state) u).
  assert (Hm : forall u, well_formed u = true -> (matches u <-> accept u = true)).
  { intros u Hu. unfold matches, accept, eval. rewrite unit_matches_goal_run, Hu.
    simpl. split; [by intros [= ->] | by intros ->]. }
  rewrite (first_result_find _ accept).
  - pose proof (find_split accept bucket) as Hfind.
    destruct (List.find accept bucket) as [u|].
    + left. destruct Hfind as (pre & post & -> & Hu & Hpre).
      apply Forall_app in Hok as [Hwpre Hwrest].
      apply Forall_cons in Hwrest as [[Hwu _] _].
      exists u, pre, post. split; [done|]. split; [done|].
      split; [by apply Hm|].
      rewrite Forall_forall in *. intros v Hv Hp.
      apply Hm in Hp; [|by apply Hwpre]. rewrite (Hpre v Hv) in Hp. discriminate.
    + right. split; [done|].
      rewrite Forall_forall in *. intros v Hv Hp.
      apply Hm in Hp; [|by apply Hok]. rewrite (Hfind v Hv) in Hp. discriminate.
  - eapply Forall_impl; [exact Hok|]. intros u [Hu Hf]. simpl.
    by apply a_star_visit_result_plain.
Qed.

(** In the sample FOON the first unit of the bucket of onion is returned,
    kitchen empty. *)
Lemma a_star_search_first_match_witness :
  eval (a_star_search "onion" "chopped") (Recipe.world ∅ ∅)
  = Ret (Some Recipe.with_knife).
Proof.
  destruct (a_star_search_first_match "onion" "chopped" (Recipe.world ∅ ∅)
              [Recipe.with_knife; Recipe.with_knife; Recipe.by_hand; Recipe.by_hand])
    as [(u & pre & post & He & _) | [He _]].
  - vm_compute. reflexivity.
  - repeat constructor; try (eexists _, _; split; vm_compute; reflexivity).
  - intros m r H. vm_compute in H. discriminate.
  - rewrite He. vm_compute in He. symmetry. exact He.
  - rewrite He. vm_compute in He. discriminate He.
Defined.

(** X3.  Whenever [a_star_search] returns [None],
    [iterative_deepening_search] returns [None] too, for every
    [max_depth]: a unit the deepening search accepts is accepted by
    [a_star_search] as well, or makes it raise. *)
Theorem a_star_none_then_ids_none (goal_object goal_state : string) (w : World) :
  eval (a_star_search goal_object goal_state) w = Ret None ->
  forall max_depth : Z,
    eval (iterative_deepening_search goal_object goal_state max_depth) w = Ret None.
Proof.
  rewrite (proj1 (computes_a_star goal_object goal_state w)).
  intros Ha max_depth.
  rewrite (proj1 (computes_ids goal_object goal_state max_depth w)).
  assert (Hd : dls_result goal_object goal_state (self w) = Ret None).
  { unfold a_star_result in Ha. unfold dls_result.
    destruct (unit_to_objects (self w) !! goal_object) as [bucket|]; [|reflexivity].
    apply first_result_all_none. apply first_result_none in Ha.
    eapply Forall_impl; [exact Ha|]. intros u. simpl.
    unfold a_star_visit_result, dls_visit_result.
    destruct (matches_result u goal_object goal_state (self w)) as [[|]|e];
      simpl; try done.
    destruct (subscript u 0) as [l|]; simpl; [|discriminate].
    destruct (subscript (split l) 1) as [m|]; simpl; [|discriminate].
    destruct (true_div 1 _); simpl; discriminate. }
  unfold ids_result. by rewrite (ids_try_result_none _ _ _ _ Hd).
Qed.

Lemma a_star_none_then_ids_none_witness :
  eval (iterative_deepening_search "onion" "fried" 5) (Recipe.world {[ "onion" ]} ∅)
  = Ret None.
Proof.
  apply (a_star_none_then_ids_none "onion" "fried" (Recipe.world {[ "onion" ]} ∅)).
  vm_compute. reflexivity.
Defined.

(** X4.  With [max_depth] at most 1 [iterative_deepening_search] returns
    [None] whatever the data: the only depth it tries, if any, is 0,
    where [depth_limited_search] gives up before looking at the index. *)
Theorem shallow_deepening_returns_none
    (goal_object goal_state : string) (max_depth : Z) (w : World) :
  (max_depth <= 1)%Z ->
  eval (iterative_deepening_search goal_object goal_state max_depth) w = Ret None
  /\ forall depth, depth ∈ range max_depth -> depth = 0%Z.
Proof.
  intros Hmd.
  rewrite (proj1 (computes_ids goal_object goal_state max_depth w)).
  unfold ids_result, range.
  destruct (Z.to_nat max_depth) as [|[|n]] eqn:Hn; [| |lia].
  - split; [reflexivity|]. intros depth Hd. by apply not_elem_of_nil in Hd.
  - split; [reflexivity|]. intros depth Hd. simpl in Hd.
    by apply list_elem_of_singleton in Hd.
Qed.

(** With [max_depth = 1] nothing is found although depth 1 would find
    the unit made by hand. *)
Lemma shallow_deepening_returns_none_witness :
  eval (iterative_deepening_search "onion" "chopped" 1) (Recipe.world {[ "onion" ]} ∅)
  = Ret None
  /\ eval (depth_limited_search "onion" "chopped" 1) (Recipe.world {[ "onion" ]} ∅)
     = Ret (Some Recipe.by_hand).
Proof.
  split.
  - apply (shallow_deepening_returns_none "onion" "chopped" 1). lia.
  - vm_compute. reflexivity.
Defined.

(** * Further properties of the loaded object *)

Lemma dls_result_returns g st s :
  (forall bucket, unit_to_objects s !! g = Some bucket ->
     Forall (fun u => well_formed u = true) bucket) ->
  exists r, dls_result g st s = Ret r.
Proof.
  intros Hwf. unfold dls_result.
  destruct (unit_to_objects s !! g) as [bucket|]; [|by eexists].
  apply first_result_returns. eapply Forall_impl; [by apply Hwf|].
  intros u Hu. simpl. rewrite dls_visit_result_well_formed by done. by eexists.
Qed.

Lemma ids_result_returns g st max_depth s :
  (exists r, dls_result g st s = Ret r) -> exists r, ids_result g st max_depth s = Ret r.
Proof.
  intros [r Hr]. unfold ids_result.
  destruct (first_result_returns (fun d => ids_try_result g st d s) (range max_depth))
    as [r' ->]; [|by eexists].
  apply Forall_forall. intros d _. unfold ids_try_result. rewrite Hr.
  destruct (d =? 0)%Z; by eexists.
Qed.

Lemma init_fields py_float foon_file kitchen_file motion_file s :
  __init__ py_float foon_file kitchen_file motion_file = Ret s ->
  Parser.load_foon foon_file = Ret (graph s, unit_to_objects s)
  /\ kitchen s = load_kitchen kitchen_file
  /\ motion_data s = load_motion py_float motion_file.
Proof.
  unfold __init__. destruct (Parser.load_foon foon_file) as [[g idx]|e]; [|discriminate].
  intros [= <-]. done.
Qed.

(** X5.  Once [__init__] has returned, no call of
    [iterative_deepening_search] or [depth_limited_search] raises,
    whatever the goal and the depth, and neither do [unit_matches_goal]
    and [available_in_kitchen] on a unit of the loaded list or of a
    bucket of the index: the parser has already met every object line. *)
Theorem loaded_searches_return
    (py_float : string -> option float) (foon_file kitchen_file motion_file : list string)
    (w : World) :
  __init__ py_float foon_file kitchen_file motion_file = Ret (self w) ->
  (forall goal_object goal_state max_depth,
     exists r, eval (iterative_deepening_search goal_object goal_state max_depth) w = Ret r)
  /\ (forall goal_object goal_state depth,
        exists r, eval (depth_limited_search goal_object goal_state depth) w = Ret r)
  /\ (forall u, u ∈ graph (self w)
                \/ (exists name bucket,
                      unit_to_objects (self w) !! name = Some bucket /\ u ∈ bucket) ->
        (exists v, eval (available_in_kitchen u) w = Ret v)
        /\ forall goal_object goal_state,
             exists b, eval (unit_matches_goal u goal_object goal_state) w = Ret b).
Proof.
  intros (Hload & _ & _)%init_fields.
  destruct (load_foon_well_formed _ _ _ Hload) as [Hg Hb].
  assert (Hd : forall g st, exists r, dls_result g st (self w) = Ret r).
  { intros g st. apply dls_result_returns. intros bucket. apply Hb. }
  split; [|split].
  - intros g st md. rewrite (proj1 (computes_ids g st md w)).
    apply ids_result_returns, Hd.
  - intros g st d. destruct (Z.eq_dec d 0%Z) as [->|Hne]; [by eexists|].
    rewrite (proj1 (computes_dls g st d Hne w)). apply Hd.
  - intros u Hu.
    assert (Hwf : well_formed u = true).
    { destruct Hu as [Hu | (name & bucket & Hn & Hu)].
      - rewrite Forall_forall in Hg. by apply Hg.
      - specialize (Hb name bucket Hn). rewrite Forall_forall in Hb. by apply Hb. }
    unfold eval. split.
    + rewrite available_in_kitchen_run, Hwf. by eexists.
    + intros g st. rewrite unit_matches_goal_run, Hwf. by eexists.
Qed.

Lemma loaded_searches_return_witness :
  exists r, eval (iterative_deepening_search "knife" "clean" 9)
                 (Recipe.world {[ "onion" ]} ∅) = Ret r.
Proof.
  destruct (loaded_searches_return (fun _ => None) Recipe.lines ["Onion"] []
              (Recipe.world {[ "onion" ]} ∅)) as [H _].
  - unfold __init__. rewrite recipe_loads. reflexivity.
  - apply H.
Defined.

(** X6.  The outcome of [a_star_search] does not depend on the kitchen:
    two loaded objects with the same index and the same motion table
    give the same result or the same exception. *)
Theorem a_star_search_kitchen_blind (goal_object goal_state : string) (w1 w2 : World) :
  unit_to_objects (self w1) = unit_to_objects (self w2) ->
  motion_data (self w1) = motion_data (self w2) ->
  eval (a_star_search goal_object goal_state) w1
  = eval (a_star_search goal_object goal_state) w2.
Proof.
  intros Hidx Htable.
  rewrite (proj1 (computes_a_star goal_object goal_state w1)),
          (proj1 (computes_a_star goal_object goal_state w2)).
  unfold a_star_result, a_star_visit_result. by rewrite Hidx, Htable.
Qed.

Lemma a_star_search_kitchen_blind_witness :
  eval (a_star_search "onion" "chopped") (Recipe.world {[ "onion"; "knife" ]} ∅)
  = eval (a_star_search "onion" "chopped") (Recipe.world ∅ ∅).
Proof.
  apply (a_star_search_kitchen_blind "onion" "chopped"
           (Recipe.world {[ "onion"; "knife" ]} ∅) (Recipe.world ∅ ∅));
    reflexivity.
Defined.

(** X7.  Between two motion tables that hold no zero rate the outcome of
    [a_star_search] is the same, the index being the same. *)
Theorem a_star_search_table_blind (goal_object goal_state : string) (w1 w2 : World) :
  unit_to_objects (self w1) = unit_to_objects (self w2) ->
  no_zero_rate (motion_data (self w1)) ->
  no_zero_rate (motion_data (self w2)) ->
  eval (a_star_search goal_object goal_state) w1
  = eval (a_star_search goal_object goal_state) w2.
Proof.
  intros Hidx H1 H2.
  rewrite (proj1 (computes_a_star goal_object goal_state w1)),
          (proj1 (computes_a_star goal_object goal_state w2)).
  by apply a_star_result_nonzero_tables.
Qed.

Lemma a_star_search_table_blind_witness :
  eval (a_star_search "onion" "chopped")
       (Recipe.world ∅ {[ "onion" := 0.5%float ]})
  = eval (a_star_search "onion" "chopped") (Recipe.world ∅ ∅).
Proof.
  apply (a_star_search_table_blind "onion" "chopped"
           (Recipe.world ∅ {[ "onion" := 0.5%float ]}) (Recipe.world ∅ ∅)).
  - reflexivity.
  - intros m r H. simpl in H. apply lookup_singleton_Some in H as [_ <-]. reflexivity.
  - intros m r H. simpl in H. rewrite lookup_empty in H. discriminate.
Defined.

(** * Further properties of the parser *)

Lemma load_foon_returns_well_formed lines r :
  Parser.load_foon lines = Ret r -> well_formed (normalize <$> lines) = true.
Proof.
  intros Hload. destruct (well_formed (normalize <$> lines)) eqn:Hwf; [done|].
  unfold Parser.load_foon in Hload.
  rewrite (run_bare_tag lines Parser.init Hwf) in Hload. discriminate.
Qed.

Lemma well_formed_false_iff (ls : list string) :
  well_formed ls = false
  <-> exists l, l ∈ ls /\ startswith l "o" = true /\ object_name l = None.
Proof.
  unfold well_formed. induction ls as [|l ls IH]; simpl.
  - split; [discriminate | intros (l & Hl & _); by apply not_elem_of_nil in Hl].
  - rewrite andb_false_iff, IH. unfold line_ok. split.
    + intros [Hl | (l' & Hl' & H)].
      * exists l. split; [apply list_elem_of_here|].
        destruct (startswith l "o"); [|discriminate]. split; [done|].
        apply bool_decide_eq_false in Hl.
        destruct (object_name l); [|done]. destruct Hl. by eexists.
      * exists l'. split; [by apply list_elem_of_further | done].
    + intros (l' & [->|Hl']%elem_of_cons & Ho & Hn).
      * left. rewrite Ho, Hn. apply bool_decide_eq_false. by intros [? ?].
      * right. by exists l'.
Qed.

(** X8.  Once the file has been read (lines 16-17), the rest of
    [load_foon], lines 19-39, raises exactly when some of the lines read,
    once normalized, starts with [o] and has no second token; the
    exception is [IndexError], and on all other lists of lines that part
    runs to its [return]. *)
Theorem load_foon_raises_iff (lines : list string) :
  (Parser.load_foon lines = Raise IndexError
   <-> exists raw, raw ∈ lines /\ startswith (normalize raw) "o" = true
                   /\ object_name (normalize raw) = None)
  /\ ((exists r, Parser.load_foon lines = Ret r)
      \/ Parser.load_foon lines = Raise IndexError).
Proof.
  assert (Hbad : well_formed (normalize <$> lines) = false
                 <-> exists raw, raw ∈ lines /\ startswith (normalize raw) "o" = true
                                 /\ object_name (normalize raw) = None).
  { rewrite well_formed_false_iff. split.
    - intros (l & (raw & -> & Hraw)%list_elem_of_fmap & H). by exists raw.
    - intros (raw & Hraw & H). exists (normalize raw).
      split; [by apply list_elem_of_fmap_2 | done]. }
  rewrite <- Hbad.
  destruct (well_formed (normalize <$> lines)) eqn:Hwf.
  - destruct (load_foon_run lines Hwf) as (front & cur & idx & Hload & _).
    rewrite Hload. split; [split; discriminate | left; by eexists].
  - unfold Parser.load_foon. rewrite (run_bare_tag lines Parser.init Hwf).
    split; [done | by right].
Qed.

Lemma elem_of_bucket_of name u us :
  u ∈ bucket_of name us -> u ∈ us /\ (0 < hits name u)%nat.
Proof.
  induction us as [|v us IH]; simpl; [by intros ?%not_elem_of_nil|].
  intros [Hu | Hu]%elem_of_app.
  - apply elem_of_replicate in Hu as [-> Hn]. split; [apply list_elem_of_here | lia].
  - destruct (IH Hu) as [Hin Hh]. split; [by apply list_elem_of_further | done].
Qed.

Lemma hits_positive name u :
  (0 < hits name u)%nat ->
  exists line, line ∈ u /\ startswith line "o" = true /\ object_name line = Some name.
Proof.
  unfold hits. intros Hlen.
  destruct (List.filter (names_object name) u) as [|line rest] eqn:Hf;
    [simpl in Hlen; lia|].
  assert (Hin : In line (List.filter (names_object name) u))
    by (rewrite Hf; by left).
  apply List.filter_In in Hin as [Hin Hn]. exists line.
  split; [by apply list_elem_of_In|].
  unfold names_object in Hn. apply andb_true_iff in Hn as [Ho Hn].
  by apply bool_decide_eq_true in Hn.
Qed.

Lemma groups_well_formed ls :
  well_formed ls = true -> Forall (fun u => well_formed u = true) (groups ls).
Proof.
  intros Hwf. unfold groups. rewrite <- drop_empty_segs.
  by apply Forall_drop_empty, segs_from_well_formed.
Qed.

(** Where the units of a bucket come from. *)
Lemma load_foon_bucket_elems lines us idx name bucket :
  Parser.load_foon lines = Ret (us, idx) ->
  idx !! name = Some bucket ->
  bucket ≠ []
  /\ Forall (fun u => u ∈ groups (normalize <$> lines) /\ (0 < hits name u)%nat) bucket.
Proof.
  intros Hload Hb.
  pose proof (load_foon_returns_well_formed _ _ Hload) as Hwf.
  destruct (load_foon_run lines Hwf) as (front & cur & idx' & Hload' & _ & Hidx).
  rewrite Hload in Hload'. injection Hload' as _ <-.
  rewrite Hidx in Hb.
  destruct (bucket_of name (groups (normalize <$> lines))) as [|b bs] eqn:Hbk;
    [discriminate|].
  injection Hb as <-. split; [done|].
  apply Forall_forall. intros u Hu. rewrite <- Hbk in Hu.
  by apply elem_of_bucket_of.
Qed.

(** X9.  In the index [load_foon] returns, no bucket is empty, and every
    unit of the bucket of a name is a non-empty unit with an object line
    carrying that name; so on the units a search examines for a goal
    object, [unit_matches_goal] comes down to its state test. *)
Theorem load_foon_bucket_invariant
    (lines : list string) (us : list Unit) (idx : gmap string (list Unit))
    (name : string) (bucket : list Unit) :
  Parser.load_foon lines = Ret (us, idx) ->
  idx !! name = Some bucket ->
  bucket ≠ []
  /\ Forall (fun u =>
       u ≠ []
       /\ (exists line, line ∈ u /\ startswith line "o" = true
                        /\ object_name line = Some name)
       /\ forall goal_state w,
            eval (unit_matches_goal u name goal_state) w
            = Ret (existsb (shows_state goal_state) u)) bucket.
Proof.
  intros Hload Hb.
  pose proof (load_foon_returns_well_formed _ _ Hload) as Hwf.
  pose proof (groups_well_formed _ Hwf) as Hgw. rewrite Forall_forall in Hgw.
  destruct (load_foon_bucket_elems _ _ _ _ _ Hload Hb) as [Hne Hall].
  split; [done|].
  eapply Forall_impl; [exact Hall|]. intros u [Hin Hh]. simpl.
  destruct (hits_positive name u Hh) as (line & Hl & Ho & Hn).
  split; [by destruct u; [apply not_elem_of_nil in Hl|]|].
  split; [by exists line|].
  intros st w. unfold eval. rewrite unit_matches_goal_run, (Hgw u Hin). simpl.
  assert (He : existsb (names_object name) u = true).
  { apply existsb_elem. exists line. split; [done|].
    unfold names_object. rewrite Ho, Hn. by rewrite bool_decide_true. }
  by rewrite He.
Qed.

Lemma load_foon_bucket_invariant_witness :
  exists bucket, Recipe.index !! "knife" = Some bucket /\ bucket ≠ [].
Proof.
  exists [Recipe.with_knife].
  assert (Hb : Recipe.index !! "knife" = Some [Recipe.with_knife])
    by (vm_compute; reflexivity).
  split; [exact Hb|].
  exact (proj1 (load_foon_bucket_invariant Recipe.lines _ _ "knife" _ recipe_loads Hb)).
Defined.

Lemma drop_empty_last front cur :
  drop_empty (front ++ [cur])
  = drop_empty front ++ match cur with [] => [] | _ :: _ => [cur] end.
Proof. rewrite drop_empty_app. by destruct cur. Qed.

Lemma segs_from_open ls l : forall cur,
  Parser.is_delimiter l = false ->
  exists front c, segs_from cur (ls ++ [l]) = front ++ [c ++ [l]].
Proof.
  induction ls as [|k ls IH]; intros cur Hl; simpl.
  - rewrite Hl. by exists [], cur.
  - destruct (Parser.is_delimiter k).
    + destruct (IH [] Hl) as (front & c & ->). by exists (cur :: front), c.
    + apply IH, Hl.
Qed.

Lemma current_empty_iff_closed lines front :
  front ++ [[]] = segs_from [] (normalize <$> lines) -> closed_input lines.
Proof.
  induction lines as [|last body _] using rev_ind; [by left|].
  intros Hsegs. right. exists body, last. split; [done|].
  destruct (Parser.is_delimiter (normalize last)) eqn:Hd; [done|].
  rewrite fmap_app in Hsegs. simpl in Hsegs.
  destruct (segs_from_open (normalize <$> body) (normalize last) [] Hd)
    as (front' & c & Heq).
  rewrite Heq in Hsegs. apply app_inj_tail in Hsegs as [_ Hc].
  by destruct c.
Qed.

(** X10.  The list of units [load_foon] returns is the list of groups of
    the input without, at most, the last group: that one is left out
    exactly when the input does not end with a delimiter line.  The
    index is built from all the groups, the last one included. *)
Theorem load_foon_units_and_index
    (lines : list string) (us : list Unit) (idx : gmap string (list Unit)) :
  Parser.load_foon lines = Ret (us, idx) ->
  exists tail,
    groups (normalize <$> lines) = us ++ tail
    /\ (length tail <= 1)%nat
    /\ (tail = [] <-> closed_input lines)
    /\ forall name,
         idx !! name = nonempty (bucket_of name (groups (normalize <$> lines))).
Proof.
  intros Hload.
  pose proof (load_foon_returns_well_formed _ _ Hload) as Hwf.
  destruct (load_foon_run lines Hwf) as (front & cur & idx' & Hload' & Hsegs & Hidx).
  rewrite Hload in Hload'. injection Hload' as -> ->.
  exists (match cur with [] => [] | _ :: _ => [cur] end).
  split; [|split; [|split]].
  - unfold groups. by rewrite <- drop_empty_segs, <- Hsegs, drop_empty_last.
  - destruct cur; simpl; lia.
  - split.
    + intros Ht. destruct cur; [|discriminate].
      by apply (current_empty_iff_closed lines front).
    + intros [->|(body & last & -> & Hd)].
      * simpl in Hsegs. destruct front as [|? [|? ?]]; by inversion Hsegs.
      * rewrite fmap_app in Hsegs. simpl in Hsegs.
        rewrite segs_from_closed in Hsegs by done.
        by apply app_inj_tail in Hsegs as [_ ->].
  - exact Hidx.
Qed.

(** Without the closing delimiter the sample FOON loses its second unit
    from the list, not from the index. *)
Lemma load_foon_units_and_index_witness :
  exists us idx tail,
    Parser.load_foon (removelast Recipe.lines) = Ret (us, idx)
    /\ groups (normalize <$> removelast Recipe.lines) = us ++ tail
    /\ us = [Recipe.with_knife] /\ tail = [Recipe.by_hand]
    /\ idx = Recipe.index.
Proof.
  assert (Hload : Parser.load_foon (removelast Recipe.lines)
                  = Ret ([Recipe.with_knife], Recipe.index))
    by (vm_compute; reflexivity).
  destruct (load_foon_units_and_index _ _ _ Hload) as (tail & Hg & _).
  exists [Recipe.with_knife], Recipe.index, tail.
  split; [exact Hload|]. split; [exact Hg|]. split; [reflexivity|].
  split; [|reflexivity].
  vm_compute in Hg. injection Hg as <-. reflexivity.
Defined.

(** * Names *)

Lemma split_from_Forall (P : ascii -> Prop) cs : forall cur,
  Forall (fun c => P c /\ isspace c = false) cur ->
  Forall P cs ->
  Forall (fun t => t ≠ [] /\ Forall (fun c => P c /\ isspace c = false) t)
         (split_from cur cs).
Proof.
  induction cs as [|c cs IH]; intros cur Hcur Hcs; simpl.
  - destruct cur; simpl; [constructor|]. constructor; [done | constructor].
  - apply Forall_cons in Hcs as [Hc Hcs].
    destruct (isspace c) eqn:Hsp.
    + destruct cur as [|d cur]; [by apply IH|].
      constructor; [done | by apply IH].
    + apply IH; [|done]. apply Forall_app. split; [done|]. by repeat constructor.
Qed.

Lemma to_string_empty cs : to_string cs = EmptyString -> cs = [].
Proof. by destruct cs. Qed.

(** Every token of a normalized ASCII line is a word token. *)
Lemma normalized_tokens raw n :
  ascii_text raw -> n ∈ split (normalize raw) -> word_token n.
Proof.
  unfold split. intros Hraw (t & -> & Ht)%list_elem_of_fmap.
  pose proof (split_from_Forall _ _ [] (List.Forall_nil _)
                (normalize_lower_words raw Hraw)) as Htok.
  rewrite Forall_forall in Htok. destruct (Htok t Ht) as [Hne Hcs].
  split.
  - intros He. by apply to_string_empty in He.
  - unfold of_string, to_string. rewrite list_ascii_of_string_of_list_ascii.
    eapply Forall_impl; [exact Hcs|]. intros c [[->|Hw] Hsp]; [discriminate | done].
Qed.

Lemma segs_from_Forall (P : string -> Prop) ls : forall cur,
  Forall P cur -> Forall P ls -> Forall (Forall P) (segs_from cur ls).
Proof.
  induction ls as [|l ls IH]; intros cur Hcur Hls; simpl.
  - by constructor.
  - apply Forall_cons in Hls as [Hl Hls].
    destruct (Parser.is_delimiter l).
    + constructor; [done | by apply IH].
    + apply IH; [|done]. apply Forall_app. by repeat constructor.
Qed.

Lemma groups_Forall (P : string -> Prop) ls :
  Forall P ls -> Forall (Forall P) (groups ls).
Proof.
  intros H. unfold groups. rewrite <- drop_empty_segs.
  by apply Forall_drop_empty, segs_from_Forall.
Qed.

(** Every line of every unit the parser returns satisfies what all
    normalized input lines satisfy. *)
Lemma load_foon_lines_Forall (P : string -> Prop) lines us idx :
  Parser.load_foon lines = Ret (us, idx) ->
  (forall raw, raw ∈ lines -> P (normalize raw)) ->
  Forall (Forall P) us
  /\ forall name bucket, idx !! name = Some bucket -> Forall (Forall P) bucket.
Proof.
  intros Hload HP.
  assert (Hnls : Forall P (normalize <$> lines)).
  { apply Forall_fmap, Forall_forall. intros raw Hraw. by apply HP. }
  pose proof (groups_Forall P _ Hnls) as Hg.
  pose proof (load_foon_returns_well_formed _ _ Hload) as Hwf.
  split.
  - destruct (load_foon_run lines Hwf) as (front & cur & idx' & Hload' & Hsegs & _).
    rewrite Hload in Hload'. injection Hload' as -> _.
    pose proof (segs_from_Forall P _ [] (List.Forall_nil _) Hnls) as Hs.
    rewrite <- Hsegs in Hs. apply Forall_app in Hs as [Hs _].
    by apply Forall_drop_empty.
  - intros name bucket Hb.
    destruct (load_foon_bucket_elems _ _ _ _ _ Hload Hb) as [_ Hall].
    rewrite Forall_forall in *. intros u Hu. apply Hg. by apply Hall.
Qed.

Lemma object_names_words u :
  Forall tokens_are_words u -> Forall word_token (object_names u).
Proof.
  intros Hu. apply Forall_forall. intros n (line & Hl & Ho & Hn)%elem_of_object_names.
  rewrite Forall_forall in Hu. apply (Hu line Hl).
  unfold object_name in Hn. by eapply list_elem_of_lookup_2.
Qed.

Lemma loaded_names_are_words_shared lines us idx :
  Forall ascii_text lines ->
  Parser.load_foon lines = Ret (us, idx) ->
  (forall u, u ∈ us -> Forall word_token (object_names u))
  /\ (forall name bucket u, idx !! name = Some bucket -> u ∈ bucket ->
        Forall word_token (object_names u)).
Proof.
  intros Hascii Hload. rewrite Forall_forall in Hascii.
  destruct (load_foon_lines_Forall tokens_are_words _ _ _ Hload) as [Hus Hbs].
  { intros raw Hraw n. apply normalized_tokens. by apply Hascii. }
  split.
  - intros u Hu. apply object_names_words. rewrite Forall_forall in Hus. by apply Hus.
  - intros name bucket u Hb Hu. apply object_names_words.
    specialize (Hbs name bucket Hb). rewrite Forall_forall in Hbs. by apply Hbs.
Qed.

(** X11.  For a FOON file of ASCII characters, every object name in a
    unit that [load_foon] returns, and every key of the index, is a
    non-empty string of the letters [a] to [z], digits and underscores.
    A goal object that is not of that form (one with a capital, a space
    or punctuation) is therefore never found: both searches return
    [None] for it. *)
Theorem loaded_names_are_word_tokens
    (lines : list string) (us : list Unit) (idx : gmap string (list Unit)) :
  Forall ascii_text lines ->
  Parser.load_foon lines = Ret (us, idx) ->
  (forall u, u ∈ us -> Forall word_token (object_names u))
  /\ (forall name bucket, idx !! name = Some bucket ->
        word_token name
        /\ forall u, u ∈ bucket -> Forall word_token (object_names u))
  /\ (forall w goal_object goal_state max_depth,
        unit_to_objects (self w) = idx -> ~ word_token goal_object ->
        eval (iterative_deepening_search goal_object goal_state max_depth) w = Ret None
        /\ eval (a_star_search goal_object goal_state) w = Ret None).
Proof.
  intros Hascii Hload. rewrite Forall_forall in Hascii.
  destruct (load_foon_lines_Forall tokens_are_words _ _ _ Hload) as [Hus Hbs].
  { intros raw Hraw n. apply normalized_tokens. by apply Hascii. }
  assert (Hkey : forall name bucket, idx !! name = Some bucket -> word_token name).
  { intros name bucket Hb.
    destruct (load_foon_bucket_elems _ _ _ _ _ Hload Hb) as [Hne Hall].
    destruct bucket as [|u bucket]; [done|].
    apply Forall_cons in Hall as [[_ Hh] _].
    destruct (hits_positive name u Hh) as (line & Hl & Ho & Hn).
    specialize (Hbs name _ Hb). apply Forall_cons in Hbs as [Hu _].
    rewrite Forall_forall in Hu. apply (Hu line Hl).
    unfold object_name in Hn. by eapply list_elem_of_lookup_2. }
  split; [|split].
  - intros u Hu. apply object_names_words. rewrite Forall_forall in Hus. by apply Hus.
  - intros name bucket Hb. split; [by eapply Hkey|].
    intros u Hu. apply object_names_words.
    specialize (Hbs name bucket Hb). rewrite Forall_forall in Hbs. by apply Hbs.
  - intros w g st md Hidx Hg.
    assert (Hnone : unit_to_objects (self w) !! g = None).
    { rewrite Hidx. destruct (idx !! g) as [bucket|] eqn:Hb; [|done].
      destruct Hg. by eapply Hkey. }
    split.
    + rewrite (proj1 (computes_ids g st md w)). unfold ids_result.
      rewrite ids_try_result_none; [done|]. unfold dls_result. by rewrite Hnone.
    + rewrite (proj1 (computes_a_star g st w)). unfold a_star_result. by rewrite Hnone.
Qed.

(** Looking for ["Onion"] in the sample FOON finds nothing. *)
Lemma loaded_names_are_word_tokens_witness :
  Forall ascii_text Recipe.lines
  /\ eval (iterative_deepening_search "Onion" "chopped" 5) (Recipe.world {[ "onion" ]} ∅)
     = Ret None.
Proof.
  split; [exact recipe_ascii|].
  destruct (loaded_names_are_word_tokens _ _ _ recipe_ascii recipe_loads) as (_ & _ & H).
  apply (H (Recipe.world {[ "onion" ]} ∅) "Onion" "chopped" 5%Z); [reflexivity|].
  intros [_ Hw]. apply Forall_cons in Hw as [Hl _]. vm_compute in Hl. discriminate.
Defined.

Lemma missing_extra_entry (k : gset string) (e : string) (u : Unit) :
  e ∉ object_names u -> missing (k ∪ {[ e ]}) u = missing k u.
Proof.
  unfold missing. induction (object_names u) as [|n ns IH]; [reflexivity|].
  intros He. apply not_elem_of_cons in He as [Hne He].
  destruct (decide (n ∈ k)) as [Hk|Hk].
  - rewrite (filter_cons_False (fun n => n ∉ k ∪ {[e]}))
      by (intros Hn; apply Hn; by apply elem_of_union_l).
    rewrite (filter_cons_False (fun n => n ∉ k)) by tauto.
    by apply IH.
  - rewrite (filter_cons_True (fun n => n ∉ k ∪ {[e]})).
    + rewrite (filter_cons_True (fun n => n ∉ k)) by done. by rewrite IH.
    + intros [Hn|Hn%elem_of_singleton]%elem_of_union; [done | congruence].
Qed.

(** X12.  For a FOON file of ASCII characters, a kitchen entry that is
    not a non-empty string of the letters [a] to [z], digits and
    underscores (the empty string a blank line of the kitchen file
    leaves, an entry of two words, an entry with punctuation) never
    changes what [available_in_kitchen] reports for a unit the parser
    returned. *)
Theorem odd_kitchen_entry_is_inert
    (lines : list string) (us : list Unit) (idx : gmap string (list Unit))
    (u : Unit) (e : string) (w1 w2 : World) :
  Forall ascii_text lines ->
  Parser.load_foon lines = Ret (us, idx) ->
  u ∈ us \/ (exists name bucket, idx !! name = Some bucket /\ u ∈ bucket) ->
  ~ word_token e ->
  kitchen (self w2) = kitchen (self w1) ∪ {[ e ]} ->
  eval (available_in_kitchen u) w2 = eval (available_in_kitchen u) w1.
Proof.
  intros Hascii Hload Hu He Hk.
  destruct (loaded_names_are_words_shared lines us idx Hascii Hload) as [Hus Hbs].
  assert (Hnames : Forall word_token (object_names u)).
  { destruct Hu as [Hu | (name & bucket & Hb & Hu)]; [by apply Hus | by eapply Hbs]. }
  unfold eval. rewrite !available_in_kitchen_run, Hk.
  rewrite missing_extra_entry; [done|].
  intros Hin. rewrite Forall_forall in Hnames. by apply He, Hnames.
Qed.

Lemma odd_kitchen_entry_is_inert_witness :
  Forall ascii_text Recipe.lines
  /\ eval (available_in_kitchen Recipe.with_knife)
          (Recipe.world ({[ "onion" ]} ∪ {[ "sharp knife" ]}) ∅)
     = eval (available_in_kitchen Recipe.with_knife) (Recipe.world {[ "onion" ]} ∅).
Proof.
  split; [exact recipe_ascii|].
  apply (odd_kitchen_entry_is_inert Recipe.lines _ _ Recipe.with_knife "sharp knife"
           (Recipe.world {[ "onion" ]} ∅)
           (Recipe.world ({[ "onion" ]} ∪ {[ "sharp knife" ]}) ∅)
           recipe_ascii recipe_loads).
  - left. apply list_elem_of_here.
  - intros [_ Hw]. rewrite Forall_forall in Hw.
    specialize (Hw " "%char). vm_compute in Hw.
    assert (Hf : false = true); [|discriminate].
    apply Hw. do 5 apply list_elem_of_further. apply list_elem_of_here.
  - reflexivity.
Defined.

(** * Normalizing twice *)

Lemma lstrip_id cs : starts_trimmed cs -> lstrip cs = cs.
Proof. destruct cs as [|c cs]; [done|]. simpl. by intros ->. Qed.

Lemma rstrip_id cs : ends_trimmed cs -> rstrip cs = cs.
Proof.
  intros [->|(init & c & -> & Hc)]; [reflexivity|].
  unfold rstrip. rewrite rev_app_distr. simpl. rewrite Hc. simpl.
  by rewrite rev_involutive.
Qed.

Lemma collapse_snoc c : forall cs b,
  isspace c = false -> collapse b (cs ++ [c]) = collapse b cs ++ [c].
Proof.
  intros cs b Hc. revert b. induction cs as [|d cs IH]; intros b; simpl.
  - by rewrite Hc.
  - destruct (isspace d); [destruct b|]; by rewrite IH.
Qed.

Lemma collapse_id cs : forall b,
  Forall (fun c => isspace c = true -> c = " "%char) cs ->
  single_spaced cs = true ->
  (b = true -> starts_trimmed cs) ->
  collapse b cs = cs.
Proof.
  induction cs as [|c cs IH]; intros b Hsp Hss Hb; [reflexivity|].
  apply Forall_cons in Hsp as [Hc Hsp].
  assert (Hss' : single_spaced cs = true).
  { destruct cs; [done|]. simpl in Hss. by apply andb_true_iff in Hss as [_ ?]. }
  cbn [collapse]. destruct (isspace c) eqn:Hcs.
  - destruct b; [specialize (Hb eq_refl); simpl in Hb; congruence|].
    rewrite (Hc eq_refl) in *. f_equal. apply IH; [done | done |].
    intros _. destruct cs as [|d cs]; [done|]. simpl.
    destruct (isspace d) eqn:Hd; [|done].
    apply Forall_cons in Hsp as [Hdsp _]. rewrite (Hdsp Hd) in Hss.
    simpl in Hss. discriminate.
  - f_equal. apply IH; [done | done | discriminate].
Qed.

(** A normalized line neither starts nor ends with whitespace. *)
Lemma normalize_chars_trimmed cs :
  starts_trimmed (normalize_chars cs) /\ ends_trimmed (normalize_chars cs).
Proof.
  unfold normalize_chars. set (x := remove_punctuation cs).
  pose proof (rstrip_starts (lstrip x) (lstrip_starts x)) as Hs.
  pose proof (rstrip_ends (lstrip x)) as He.
  fold (strip x) in Hs, He. split.
  - destruct (strip x) as [|c rest]; [done|]. simpl in *.
    rewrite isspace_lower, Hs. simpl. by rewrite isspace_lower.
  - destruct He as [->|(init & c & -> & Hc)]; [by left|].
    right. exists (collapse false (lower init)), (lower_char c).
    rewrite isspace_lower. split; [|done].
    unfold lower. rewrite map_app. simpl.
    apply collapse_snoc. by rewrite isspace_lower.
Qed.

Lemma normalize_chars_idempotent cs :
  normalize_chars (normalize_chars cs) = normalize_chars cs.
Proof.
  set (out := normalize_chars cs).
  assert (Hshape : Forall plain out /\ Forall (fun c => lower_char c = c) out
                   /\ single_spaced out = true
                   /\ Forall (fun c => isspace c = true -> c = " "%char) out).
  { pose proof (normalize_shape (to_string cs)) as (H1 & H2 & H3).
    unfold normalize in *. rewrite !of_to_string in *.
    repeat split; try done. apply collapse_spaces. }
  destruct Hshape as (Hplain & Hlow & Hss & Hsp).
  destruct (normalize_chars_trimmed cs) as [Hst Hen]. fold out in Hst, Hen.
  unfold normalize_chars at 1.
  assert (H1 : remove_punctuation out = out).
  { unfold remove_punctuation. clear -Hplain.
    induction Hplain as [|c rest [->|Hw] _ IH]; simpl; [done| |].
    - by rewrite IH.
    - by rewrite Hw, IH. }
  assert (H2 : strip out = out).
  { unfold strip. by rewrite lstrip_id, rstrip_id. }
  assert (H3 : lower out = out).
  { unfold lower. clear -Hlow.
    induction Hlow as [|c rest Hc _ IH]; simpl; [done|]. by rewrite Hc, IH. }
  rewrite H1, H2, H3. by apply collapse_id.
Qed.

Lemma normalize_twice raw : normalize (normalize raw) = normalize raw.
Proof. unfold normalize. by rewrite of_to_string, normalize_chars_idempotent. Qed.

Lemma run_normalized lines : forall s,
  Parser.run s (normalize <$> lines) = Parser.run s lines.
Proof.
  induction lines as [|raw lines IH]; intros s; [reflexivity|].
  cbn [fmap list_fmap Parser.run].
  assert (Hstep : Parser.step s (normalize raw) = Parser.step s raw).
  { unfold Parser.step. by rewrite normalize_twice. }
  rewrite Hstep. destruct (Parser.step s raw); [apply IH | reflexivity].
Qed.

(** X13.  For ASCII text, normalizing a line twice gives what
    normalizing it once gives, and the result is ASCII text again with
    no whitespace at either end; hence [load_foon] returns the same on
    the lines of an ASCII file and on those lines normalized
    beforehand. *)
Theorem normalize_idempotent (raw : string) (lines : list string) :
  ascii_text raw ->
  Forall ascii_text lines ->
  normalize (normalize raw) = normalize raw
  /\ ascii_text (normalize raw)
  /\ starts_trimmed (of_string (normalize raw))
  /\ ends_trimmed (of_string (normalize raw))
  /\ Parser.load_foon (normalize <$> lines) = Parser.load_foon lines.
Proof.
  intros Hraw Hlines. split; [|split; [|split; [|split]]].
  - apply normalize_twice.
  - by apply normalize_ascii.
  - unfold normalize. rewrite of_to_string. apply normalize_chars_trimmed.
  - unfold normalize. rewrite of_to_string. apply normalize_chars_trimmed.
  - unfold Parser.load_foon. by rewrite run_normalized.
Qed.

(** The sample FOON loads the same once its lines are normalized. *)
Lemma normalize_idempotent_witness :
  ascii_text "  O1   Onion,  1 "
  /\ Forall ascii_text Recipe.lines
  /\ normalize (normalize "  O1   Onion,  1 ") = normalize "  O1   Onion,  1 "
  /\ Parser.load_foon (normalize <$> Recipe.lines) = Parser.load_foon Recipe.lines.
Proof.
  assert (Hraw : ascii_text "  O1   Onion,  1 ") by reflexivity.
  split; [exact Hraw|]. split; [exact recipe_ascii|].
  destruct (normalize_idempotent "  O1   Onion,  1 " Recipe.lines Hraw recipe_ascii)
    as (H1 & _ & _ & _ & H2).
  split; [exact H1 | exact H2].
Defined.

(** * The loaders and the availability report *)

Lemma load_kitchen_from (lines : list string) : forall k0 : gset string,
  foldl (fun kitchen line => kitchen ∪ {[ kitchen_entry line ]}) k0 lines
  = k0 ∪ list_to_set (kitchen_entry <$> lines).
Proof.
  induction lines as [|line lines IH]; intros k0; simpl.
  - symmetry. apply (right_id_L ∅ (∪)).
  - rewrite IH. symmetry. apply (assoc_L (∪)).
Qed.

Lemma load_kitchen_set (lines : list string) :
  load_kitchen lines = list_to_set (kitchen_entry <$> lines).
Proof.
  unfold load_kitchen.
  change (fun (kitchen : gset string) line =>
            kitchen ∪ {[ to_string (lower (strip (of_string line))) ]})
    with (fun (kitchen : gset string) line => kitchen ∪ {[ kitchen_entry line ]}).
  rewrite load_kitchen_from. apply (left_id_L ∅ (∪)).
Qed.

(** X14.  Loading the lines of one kitchen file followed by the lines
    of another gives the union of their kitchens.  For a kitchen file of
    ASCII characters, every entry of the kitchen set is ASCII text
    without whitespace at either end and without any of the letters [A]
    to [Z]. *)
Theorem load_kitchen_entries (lines more : list string) :
  load_kitchen (lines ++ more) = load_kitchen lines ∪ load_kitchen more
  /\ (Forall ascii_text lines ->
      forall x, x ∈ load_kitchen lines ->
        ascii_text x
        /\ starts_trimmed (of_string x) /\ ends_trimmed (of_string x)
        /\ Forall (fun c => capital c = false) (of_string x)).
Proof.
  split; [by rewrite !load_kitchen_set, fmap_app, list_to_set_app_L|].
  intros Hascii x Hx.
  rewrite load_kitchen_set, elem_of_list_to_set, list_elem_of_fmap in Hx.
  destruct Hx as (line & -> & Hline).
  rewrite Forall_forall in Hascii. specialize (Hascii line Hline).
  apply ascii_text_Forall in Hascii.
  unfold kitchen_entry. rewrite ascii_text_Forall, of_to_string.
  set (cs := of_string line) in *.
  pose proof (rstrip_starts (lstrip cs) (lstrip_starts cs)) as Hs.
  pose proof (rstrip_ends (lstrip cs)) as He. fold (strip cs) in Hs, He.
  pose proof (Forall_strip _ _ Hascii) as Hkept.
  split; [|split; [|split]].
  - unfold lower. apply Forall_fmap. eapply Forall_impl; [exact Hkept|].
    intros c Hc. simpl. apply (ascii_tables c Hc).
  - destruct (strip cs) as [|c rest]; [done|]. simpl in *. by rewrite isspace_lower.
  - destruct He as [->|(init & c & -> & Hc)]; [by left|].
    right. exists (lower init), (lower_char c). unfold lower.
    rewrite map_app, isspace_lower. done.
  - unfold lower. apply Forall_fmap. eapply Forall_impl; [exact Hkept|].
    intros c Hc. simpl. by apply lower_not_capital.
Qed.

Lemma load_motion_snoc py_float lines line :
  load_motion py_float (lines ++ [line])
  = match motion_entry py_float line with
    | Some (motion, success_rate) =>
        <[motion := success_rate]> (load_motion py_float lines)
    | None => load_motion py_float lines
    end.
Proof.
  unfold load_motion at 1. rewrite foldl_snoc. fold (load_motion py_float lines).
  unfold motion_entry.
  destruct (split (to_string (strip (of_string line)))) as [|motion [|text parts]];
    try reflexivity.
  simpl. by destruct (py_float text).
Qed.

(** X15.  The motion table gives a motion the rate of the last line of
    the file that names it as first token and carries a number as second
    token; lines with fewer than two tokens or with an unreadable number
    are passed over, and a motion no line names is not in the table. *)
Theorem load_motion_last_wins
    (py_float : string -> option float) (lines : list string) (motion : string) :
  load_motion py_float lines !! motion = last (rates_for py_float motion lines).
Proof.
  induction lines as [|line lines IH] using rev_ind; [reflexivity|].
  rewrite load_motion_snoc. unfold rates_for in *. rewrite omap_app. simpl.
  destruct (motion_entry py_float line) as [[m r]|]; simpl.
  - case_bool_decide as Hm.
    + subst m. by rewrite lookup_insert_eq, last_snoc.
    + rewrite lookup_insert_ne by done. by rewrite app_nil_r.
  - by rewrite app_nil_r.
Qed.

Lemma usable_step_run acc u w :
  usable_step acc u w
  = (if well_formed u
     then Ret (if fully_available (kitchen (self w)) u then acc ++ [u] else acc)
     else Raise IndexError, w).
Proof.
  unfold usable_step. rewrite (bind_run _ _ _ _ _ (usable_condition_run u w)).
  unfold available_result, fully_available. destruct (well_formed u); [|reflexivity].
  simpl. by destruct (missing (kitchen (self w)) u).
Qed.

Lemma usable_fold k us : forall acc,
  fold_result (fun acc u =>
      if well_formed u
      then Ret (if fully_available k u then acc ++ [u] else acc)
      else Raise IndexError) us acc
  = if forallb well_formed us
    then Ret (acc ++ List.filter (fully_available k) us)
    else Raise IndexError.
Proof.
  induction us as [|u us IH]; intros acc; simpl.
  - by rewrite app_nil_r.
  - destruct (well_formed u); [|reflexivity]. simpl. rewrite IH.
    destruct (forallb well_formed us); [|reflexivity].
    destruct (fully_available k u); [|reflexivity].
    by rewrite <- app_assoc.
Qed.

(** X16.  The availability report of [test_script.py] is the sublist of
    the loaded units, in their order, whose object names are all in the
    kitchen (a unit without object lines is one of them); it raises
    [IndexError] if some unit has an object line without a name, which
    cannot happen once [__init__] has returned. *)
Theorem run_available_units_check_spec (w : World) :
  eval run_available_units_check w
  = (if forallb well_formed (graph (self w))
     then Ret (List.filter (fully_available (kitchen (self w))) (graph (self w)))
     else Raise IndexError)
  /\ exec run_available_units_check w = w
  /\ forall py_float foon_file kitchen_file motion_file,
       __init__ py_float foon_file kitchen_file motion_file = Ret (self w) ->
       forallb well_formed (graph (self w)) = true.
Proof.
  assert (Hrun : run_available_units_check w
                 = (if forallb well_formed (graph (self w))
                    then Ret (List.filter (fully_available (kitchen (self w)))
                                          (graph (self w)))
                    else Raise IndexError, w)).
  { unfold run_available_units_check. rewrite bind_attr.
    rewrite (for_fold_silent _ _ w (fun acc u => usable_step_run acc u w)).
    by rewrite usable_fold. }
  unfold eval, exec. rewrite Hrun. split; [done|]. split; [done|].
  intros pf ff kf mf (Hload & _)%init_fields.
  destruct (load_foon_well_formed _ _ _ Hload) as [Hg _].
  apply forallb_forall. intros u Hu%list_elem_of_In.
  rewrite Forall_forall in Hg. by apply Hg.
Qed.

(** * The graph of a FOON *)

#[local] Set Warnings "-clear-no-such-hyp".

Lemma digraph_eq (G1 G2 : GraphVis.DiGraph) :
  GraphVis.nodes G1 = GraphVis.nodes G2 -> GraphVis.edges G1 = GraphVis.edges G2 ->
  G1 = G2.
Proof. destruct G1, G2. simpl. by intros -> ->. Qed.

Lemma visit_line_node G previous line n :
  node_line line = true -> split line !! 1 = Some n ->
  (forall p, previous = Some p -> p ∈ GraphVis.nodes G) ->
  exists G',
    GraphVis.visit_line (G, previous) line = Ret (G', Some n)
    /\ GraphVis.nodes G' = GraphVis.nodes G ∪ {[ n ]}
    /\ GraphVis.edges G'
       = GraphVis.edges G ∪ list_to_set (links (chain previous [n])).
Proof.
  intros Hnode Hn Hp. unfold GraphVis.visit_line, subscript. rewrite Hn.
  assert (Hboth : exists G',
    Ret (match previous with
         | Some p => GraphVis.add_edge (GraphVis.add_node G n) p n
         | None => GraphVis.add_node G n
         end, Some n) = Ret (G', Some n)
    /\ GraphVis.nodes G' = GraphVis.nodes G ∪ {[ n ]}
    /\ GraphVis.edges G'
       = GraphVis.edges G ∪ list_to_set (links (chain previous [n]))).
  { eexists. split; [reflexivity|]. destruct previous as [p|]; simpl.
    - specialize (Hp p eq_refl). split; set_solver.
    - split; set_solver. }
  unfold node_line in Hnode.
  destruct (startswith line "o"); [exact Hboth|].
  destruct (startswith line "m"); [exact Hboth | discriminate].
Qed.

Lemma visit_line_other G previous line :
  node_line line = false ->
  GraphVis.visit_line (G, previous) line = Ret (G, previous).
Proof.
  unfold node_line, GraphVis.visit_line. intros [-> ->]%orb_false_iff.
  by destruct (startswith line "s").
Qed.

Lemma visit_line_bare G previous line :
  node_line line = true -> split line !! 1 = None ->
  GraphVis.visit_line (G, previous) line = Raise IndexError.
Proof.
  unfold node_line, GraphVis.visit_line, subscript. intros Hnode ->.
  destruct (startswith line "o"); [reflexivity|].
  destruct (startswith line "m"); [reflexivity | discriminate].
Qed.

Lemma links_chain_cons previous n rest :
  list_to_set (links (chain previous (n :: rest)))
  = (list_to_set (links (chain previous [n])) : gset (string * string))
    ∪ list_to_set (links (n :: rest)).
Proof.
  destruct previous as [p|]; simpl.
  - destruct rest; simpl; set_solver.
  - destruct rest; simpl; set_solver.
Qed.

Lemma labels_cons line u :
  labels (line :: u)
  = match label line with Some n => n :: labels u | None => labels u end.
Proof. reflexivity. Qed.

Lemma drawable_cons line u :
  drawable (line :: u)
  = (if node_line line then bool_decide (is_Some (split line !! 1)) else true)
    && drawable u.
Proof. reflexivity. Qed.

Lemma visit_lines_run u : forall G previous,
  (forall p, previous = Some p -> p ∈ GraphVis.nodes G) ->
  then_result (fold_result GraphVis.visit_line u (G, previous)) (fun st => Ret (fst st))
  = if drawable u
    then Ret {| GraphVis.nodes := GraphVis.nodes G ∪ list_to_set (labels u);
                GraphVis.edges := GraphVis.edges G
                                  ∪ list_to_set (links (chain previous (labels u))) |}
    else Raise IndexError.
Proof.
  induction u as [|line u IH]; intros G previous Hp.
  - simpl. f_equal. apply digraph_eq; simpl.
    + set_solver.
    + destruct previous; simpl; set_solver.
  - cbn [fold_result]. rewrite drawable_cons, labels_cons. unfold label.
    destruct (node_line line) eqn:Hnode.
    + destruct (split line !! 1) as [n|] eqn:Hn.
      * destruct (visit_line_node G previous line n Hnode Hn Hp)
          as (G' & -> & Hnodes & Hedges).
        rewrite (bool_decide_true (is_Some (Some n))) by (by eexists).
        rewrite IH by (intros p [= <-]; rewrite Hnodes; set_solver).
        cbn [andb chain]. destruct (drawable u); [|reflexivity].
        f_equal. apply digraph_eq; cbn [GraphVis.nodes GraphVis.edges].
        -- rewrite Hnodes, list_to_set_cons. set_solver.
        -- rewrite Hedges, (links_chain_cons previous n (labels u)). set_solver.
      * rewrite (visit_line_bare G previous line Hnode Hn).
        rewrite bool_decide_false by (by intros [? ?]). reflexivity.
    + rewrite (visit_line_other G previous line Hnode). by apply IH.
Qed.

Lemma visit_unit_run G u :
  GraphVis.visit_unit G u
  = if drawable u
    then Ret {| GraphVis.nodes := GraphVis.nodes G ∪ list_to_set (labels u);
                GraphVis.edges := GraphVis.edges G ∪ list_to_set (links (labels u)) |}
    else Raise IndexError.
Proof. unfold GraphVis.visit_unit. by rewrite visit_lines_run. Qed.

Lemma visit_units_run data : forall G,
  fold_result GraphVis.visit_unit data G
  = if forallb drawable data
    then Ret {| GraphVis.nodes := GraphVis.nodes G ∪ GraphVis.nodes (graph_of data);
                GraphVis.edges := GraphVis.edges G ∪ GraphVis.edges (graph_of data) |}
    else Raise IndexError.
Proof.
  induction data as [|u data IH]; intros G.
  - simpl. f_equal. apply digraph_eq; simpl; set_solver.
  - cbn [fold_result forallb]. rewrite visit_unit_run.
    destruct (drawable u); [|reflexivity]. rewrite IH. simpl.
    destruct (forallb drawable data); [|reflexivity].
    f_equal. apply digraph_eq; simpl; set_solver.
Qed.

(** [foon_to_graph] as a function of the node names of the units. *)
Lemma foon_to_graph_run data :
  GraphVis.foon_to_graph data
  = if forallb drawable data then Ret (graph_of data) else Raise IndexError.
Proof.
  unfold GraphVis.foon_to_graph. rewrite visit_units_run.
  destruct (forallb drawable data); [|reflexivity].
  f_equal. apply digraph_eq; simpl; set_solver.
Qed.

Lemma elem_of_concat_fmap {X Y} (f : X -> list Y) (xs : list X) (y : Y) :
  y ∈ concat (f <$> xs) <-> exists x, x ∈ xs /\ y ∈ f x.
Proof.
  induction xs as [|x xs IH]; simpl.
  - split; [by intros ?%not_elem_of_nil | by intros (x & ?%not_elem_of_nil & _)].
  - rewrite elem_of_app, IH. split.
    + intros [Hy | (x' & Hx' & Hy)].
      * exists x. split; [apply list_elem_of_here | done].
      * exists x'. split; [by apply list_elem_of_further | done].
    + intros (x' & [->|Hx']%elem_of_cons & Hy); [by left | right; by exists x'].
Qed.

(** Two names are linked when they are neighbours in the list. *)
Lemma elem_of_links (xs : list string) (a b : string) :
  (a, b) ∈ links xs <-> exists pre post, xs = pre ++ a :: b :: post.
Proof.
  unfold links. induction xs as [|x xs IH]; simpl.
  - split; [by intros ?%not_elem_of_nil | intros (pre & post & H); by destruct pre].
  - destruct xs as [|y xs]; simpl.
    + split; [by intros ?%not_elem_of_nil|].
      intros (pre & post & H). destruct pre as [|? [|? ?]]; discriminate.
    + rewrite elem_of_cons. simpl in IH. rewrite IH. split.
      * intros [[= -> ->] | (pre & post & ->)].
        -- by exists [], xs.
        -- by exists (x :: pre), post.
      * intros (pre & post & H). destruct pre as [|z pre]; simpl in H.
        -- left. congruence.
        -- right. injection H as -> H. by exists pre, post.
Qed.

Lemma elem_of_labels u n :
  n ∈ labels u
  <-> exists line, line ∈ u /\ node_line line = true /\ split line !! 1 = Some n.
Proof.
  unfold labels. rewrite list_elem_of_omap. unfold label. split.
  - intros (line & Hl & Hn). exists line. split; [done|].
    destruct (node_line line); [done | discriminate].
  - intros (line & Hl & Hnode & Hn). exists line. split; [done|]. by rewrite Hnode.
Qed.

(** X17.  The graph [foon_to_graph] returns has as nodes exactly the
    second tokens of the object and motion lines of the units, and an
    edge from one name to another exactly when, in some unit, the two
    are the names of an object or motion line and of the next such line;
    state lines are skipped, and no edge joins two units. *)
Theorem foon_to_graph_nodes_and_edges (foon_data : list Unit) (G : GraphVis.DiGraph) :
  GraphVis.foon_to_graph foon_data = Ret G ->
  (forall n, n ∈ GraphVis.nodes G
             <-> exists u line, u ∈ foon_data /\ line ∈ u /\ node_line line = true
                                /\ split line !! 1 = Some n)
  /\ (forall a b, (a, b) ∈ GraphVis.edges G
                  <-> exists u pre post, u ∈ foon_data
                                         /\ labels u = pre ++ a :: b :: post).
Proof.
  rewrite foon_to_graph_run. destruct (forallb drawable foon_data); [|discriminate].
  intros [= <-]. unfold graph_of. cbn [GraphVis.nodes GraphVis.edges]. split.
  - intros n. rewrite elem_of_list_to_set, elem_of_concat_fmap. split.
    + intros (u & Hu & (line & H)%elem_of_labels). by exists u, line.
    + intros (u & line & Hu & H). exists u. split; [done|].
      apply elem_of_labels. by exists line.
  - intros a b. rewrite elem_of_list_to_set, elem_of_concat_fmap. split.
    + intros (u & Hu & (pre & post & H)%elem_of_links). by exists u, pre, post.
    + intros (u & pre & post & Hu & H). exists u. split; [done|].
      apply elem_of_links. by exists pre, post.
Qed.

(** The graph of the sample FOON links the knife to the motion [chop],
    not the state lines in between. *)
Lemma foon_to_graph_nodes_and_edges_witness :
  exists G, GraphVis.foon_to_graph [Recipe.with_knife; Recipe.by_hand] = Ret G
            /\ ("knife", "chop") ∈ GraphVis.edges G.
Proof.
  assert (Hg : GraphVis.foon_to_graph [Recipe.with_knife; Recipe.by_hand]
               = Ret (graph_of [Recipe.with_knife; Recipe.by_hand]))
    by (rewrite foon_to_graph_run; reflexivity).
  exists (graph_of [Recipe.with_knife; Recipe.by_hand]). split; [exact Hg|].
  apply (foon_to_graph_nodes_and_edges _ _ Hg).
  exists Recipe.with_knife, ["onion"], ["onion"].
  split; [apply list_elem_of_here | vm_compute; reflexivity].
Defined.

Lemma drawable_false_iff u :
  drawable u = false
  <-> exists line, line ∈ u /\ node_line line = true /\ split line !! 1 = None.
Proof.
  induction u as [|line u IH].
  - split; [discriminate | by intros (l & ?%not_elem_of_nil & _)].
  - rewrite drawable_cons, andb_false_iff, IH. split.
    + intros [Hl | (l & Hl & H)].
      * exists line. split; [apply list_elem_of_here|].
        destruct (node_line line); [|discriminate]. split; [done|].
        apply bool_decide_eq_false in Hl.
        destruct (split line !! 1); [|done]. destruct Hl. by eexists.
      * exists l. split; [by apply list_elem_of_further | done].
    + intros (l & [->|Hl]%elem_of_cons & Hnode & Hn).
      * left. rewrite Hnode, Hn. apply bool_decide_eq_false. by intros [? ?].
      * right. by exists l.
Qed.

Lemma forallb_drawable_false_iff (data : list Unit) :
  forallb drawable data = false
  <-> exists u line, u ∈ data /\ line ∈ u /\ node_line line = true
                     /\ split line !! 1 = None.
Proof.
  induction data as [|u data IH]; simpl.
  - split; [discriminate | by intros (u & l & ?%not_elem_of_nil & _)].
  - rewrite andb_false_iff, IH, drawable_false_iff. split.
    + intros [(l & H) | (u' & l & Hu' & H)].
      * exists u, l. split; [apply list_elem_of_here | done].
      * exists u', l. split; [by apply list_elem_of_further | done].
    + intros (u' & l & [->|Hu']%elem_of_cons & H).
      * left. by exists l.
      * right. by exists u', l.
Qed.

(** X18.  [foon_to_graph] raises exactly when some unit has an object or
    motion line without a second token, and then it is [IndexError]; for
    the units [load_foon] returns, only a motion line can be the cause,
    the parser having refused object lines without a name. *)
Theorem foon_to_graph_raises_iff (foon_data : list Unit) :
  (GraphVis.foon_to_graph foon_data = Raise IndexError
   <-> exists u line, u ∈ foon_data /\ line ∈ u /\ node_line line = true
                      /\ split line !! 1 = None)
  /\ ((exists G, GraphVis.foon_to_graph foon_data = Ret G)
      \/ GraphVis.foon_to_graph foon_data = Raise IndexError)
  /\ (forall lines idx,
        Parser.load_foon lines = Ret (foon_data, idx) ->
        (GraphVis.foon_to_graph foon_data = Raise IndexError
         <-> exists u line, u ∈ foon_data /\ line ∈ u /\ startswith line "m" = true
                            /\ split line !! 1 = None)).
Proof.
  rewrite foon_to_graph_run, <- forallb_drawable_false_iff.
  split; [|split].
  - destruct (forallb drawable foon_data); split; done.
  - destruct (forallb drawable foon_data); [left; by eexists | by right].
  - intros lines idx Hload.
    destruct (load_foon_well_formed _ _ _ Hload) as [Hwf _].
    rewrite Forall_forall in Hwf.
    assert (Hiff : forallb drawable foon_data = false
                   <-> exists u line, u ∈ foon_data /\ line ∈ u
                                      /\ startswith line "m" = true
                                      /\ split line !! 1 = None).
    { rewrite forallb_drawable_false_iff. split.
      - intros (u & line & Hu & Hl & Hnode & Hn). exists u, line.
        split; [done|]. split; [done|]. split; [|done].
        unfold node_line in Hnode. destruct (startswith line "o") eqn:Ho; [|done].
        pose proof (proj1 (well_formed_spec u) (Hwf u Hu) line Hl Ho) as [n Hn'].
        unfold object_name in Hn'. congruence.
      - intros (u & line & Hu & Hl & Hm & Hn). exists u, line.
        split; [done|]. split; [done|]. split; [|done].
        unfold node_line. rewrite Hm. apply orb_true_r. }
    rewrite <- Hiff. destruct (forallb drawable foon_data); split; done.
Qed.

(** X19.  The graph of two lists of units put together is the union of
    their graphs, so the order in which the units come does not matter;
    and if either list makes [foon_to_graph] raise, so does the whole. *)
Theorem foon_to_graph_app (data1 data2 : list Unit) :
  GraphVis.foon_to_graph (data1 ++ data2)
  = match GraphVis.foon_to_graph data1, GraphVis.foon_to_graph data2 with
    | Ret G1, Ret G2 => Ret (graph_union G1 G2)
    | _, _ => Raise IndexError
    end
  /\ GraphVis.foon_to_graph (data1 ++ data2) = GraphVis.foon_to_graph (data2 ++ data1).
Proof.
  rewrite !foon_to_graph_run, !forallb_app.
  assert (Hu : forall d1 d2, graph_of (d1 ++ d2) = graph_union (graph_of d1) (graph_of d2)).
  { intros d1 d2. apply digraph_eq; unfold graph_of, graph_union;
      cbn [GraphVis.nodes GraphVis.edges];
      by rewrite fmap_app, concat_app, list_to_set_app_L. }
  split.
  - destruct (forallb drawable data1), (forallb drawable data2); simpl;
      by rewrite ?Hu.
  - destruct (forallb drawable data1), (forallb drawable data2); simpl; try done.
    f_equal. rewrite !Hu. apply digraph_eq; simpl; set_solver.
Qed.

(** * Monotonicity *)

Lemma contains_trans (a b c : string) :
  contains a b = true -> contains b c = true -> contains a c = true.
Proof.
  rewrite !contains_spec. intros (p1 & q1 & ->) (p2 & q2 & ->).
  exists (p2 ++ p1)%string, (q1 ++ q2)%string.
  assert (Hassoc : forall x y z : string, ((x ++ y) ++ z)%string = (x ++ (y ++ z))%string).
  { intros x y z. induction x as [|ch x IH]; [reflexivity|].
    rewrite !append_cons. by rewrite IH. }
  by rewrite !Hassoc.
Qed.

(** X20.  The goal matcher is monotone in the goal state: a unit that
    matches a goal state matches every goal state contained in it, the
    empty one included, for the same goal object. *)
Theorem unit_matches_shorter_state (u : Unit) (goal_object st long : string) (w : World) :
  eval (unit_matches_goal u goal_object long) w = Ret true ->
  contains st long = true ->
  eval (unit_matches_goal u goal_object st) w = Ret true
  /\ eval (unit_matches_goal u goal_object EmptyString) w = Ret true.
Proof.
  unfold eval. rewrite !unit_matches_goal_run.
  destruct (well_formed u); [|discriminate]. simpl.
  intros [= H] Hsub. apply andb_true_iff in H as [Ho Hs]. rewrite Ho. simpl.
  apply existsb_elem in Hs as (line & Hl & Hline).
  unfold shows_state in Hline. apply andb_true_iff in Hline as [Hstart Hc].
  assert (Hmono : forall s', contains s' long = true ->
                    existsb (shows_state s') u = true).
  { intros s' Hs'. apply existsb_elem. exists line. split; [done|].
    unfold shows_state. rewrite Hstart. simpl. by eapply contains_trans. }
  rewrite (Hmono st Hsub), (Hmono EmptyString); [done|].
  apply contains_spec. by exists EmptyString, long.
Qed.

Lemma unit_matches_shorter_state_witness :
  eval (unit_matches_goal Recipe.by_hand "onion" "chop") (Recipe.world ∅ ∅) = Ret true.
Proof.
  apply (unit_matches_shorter_state Recipe.by_hand "onion" "chop" "chopped"
           (Recipe.world ∅ ∅)); vm_compute; reflexivity.
Defined.

Lemma missing_mono (k1 k2 : gset string) (u : Unit) :
  k1 ⊆ k2 -> missing k1 u = [] -> missing k2 u = [].
Proof.
  rewrite !missing_nil_iff. intros Hsub H n Hn. by apply Hsub, H.
Qed.

Lemma first_result_some_mono {X R} (f1 f2 : X -> result (option R)) xs v :
  first_result f1 xs = Ret (Some v) ->
  (forall x r, f1 x = Ret r -> exists r', f2 x = Ret r') ->
  (forall x r, f1 x = Ret (Some r) -> exists r', f2 x = Ret (Some r')) ->
  exists v', first_result f2 xs = Ret (Some v').
Proof.
  intros Hf Hret Hsome. induction xs as [|x xs IH]; simpl in *; [discriminate|].
  destruct (f1 x) as [[r|]|e] eqn:H1; [| |discriminate].
  - destruct (Hsome x r H1) as [r' ->]. by eexists.
  - destruct (Hret x None H1) as [[r'|] ->]; [by eexists | by apply IH].
Qed.

(** X21.  Adding to the kitchen never loses a solution: if
    [depth_limited_search] returns a unit, it still returns a unit
    (that one or an earlier one of the bucket) on the same index with a
    larger kitchen; and a unit reported fully available stays so. *)
Theorem larger_kitchen_keeps_solution
    (goal_object goal_state : string) (depth : Z) (w1 w2 : World) (u : Unit) :
  unit_to_objects (self w1) = unit_to_objects (self w2) ->
  kitchen (self w1) ⊆ kitchen (self w2) ->
  eval (depth_limited_search goal_object goal_state depth) w1 = Ret (Some u) ->
  (exists v, eval (depth_limited_search goal_object goal_state depth) w2 = Ret (Some v))
  /\ eval (available_in_kitchen u) w2 = Ret PyTrue.
Proof.
  intros Hidx Hk Hfound.
  assert (Hd : depth ≠ 0%Z) by (intros ->; discriminate Hfound).
  rewrite (proj1 (computes_dls goal_object goal_state depth Hd w1)) in Hfound.
  rewrite (proj1 (computes_dls goal_object goal_state depth Hd w2)).
  unfold dls_result in *. rewrite <- Hidx.
  destruct (unit_to_objects (self w1) !! goal_object) as [bucket|]; [|discriminate].
  assert (Hvisit : forall x r,
            dls_visit_result goal_object goal_state x (self w1) = Ret r ->
            well_formed x = true
            /\ (forall r0, r = Some r0 ->
                  r0 = x /\ missing (kitchen (self w1)) x = []
                  /\ dls_visit_result goal_object goal_state x (self w2) = Ret (Some x))
            /\ exists r', dls_visit_result goal_object goal_state x (self w2) = Ret r').
  { intros x r. unfold dls_visit_result, matches_result, available_result.
    destruct (well_formed x); [|discriminate]. simpl.
    destruct (existsb (names_object goal_object) x
              && existsb (shows_state goal_state) x); simpl.
    - destruct (missing (kitchen (self w1)) x) as [|n ns] eqn:Hm; simpl.
      + rewrite (missing_mono _ _ x Hk Hm). simpl. intros [= <-].
        split; [done|]. split; [by intros r0 [= <-] | by eexists].
      + intros [= <-]. split; [done|]. split; [discriminate | by eexists].
    - intros [= <-]. split; [done|]. split; [discriminate | by eexists]. }
  split.
  - eapply first_result_some_mono; [exact Hfound | |].
    + intros x r Hx. by destruct (Hvisit x r Hx) as (_ & _ & ?).
    + intros x r Hx. destruct (Hvisit x _ Hx) as (_ & H & _).
      destruct (H r eq_refl) as (_ & _ & ->). by eexists.
  - apply first_result_elem in Hfound as (x & _ & Hx).
    destruct (Hvisit x _ Hx) as (Hwf & H & _).
    destruct (H u eq_refl) as (-> & Hm & _).
    unfold eval. rewrite available_in_kitchen_run, Hwf.
    by rewrite (missing_mono _ _ x Hk Hm).
Qed.

(** With the knife added to the kitchen the search still succeeds, now
    with the first unit of the bucket. *)
Lemma larger_kitchen_keeps_solution_witness :
  exists v, eval (depth_limited_search "onion" "chopped" 1)
                 (Recipe.world {[ "onion"; "knife" ]} ∅) = Ret (Some v).
Proof.
  apply (larger_kitchen_keeps_solution "onion" "chopped" 1
           (Recipe.world {[ "onion" ]} ∅) (Recipe.world {[ "onion"; "knife" ]} ∅)
           Recipe.by_hand).
  - reflexivity.
  - simpl. apply union_subseteq_l.
  - vm_compute. reflexivity.
Defined.

Lemma hits_of_object_name name u :
  name ∈ object_names u -> (0 < hits name u)%nat.
Proof.
  intros (line & Hl & Ho & Hn)%elem_of_object_names. unfold hits.
  assert (Hin : In line (List.filter (names_object name) u)).
  { apply List.filter_In. split; [by apply list_elem_of_In|].
    unfold names_object. rewrite Ho, Hn. by rewrite bool_decide_true. }
  destruct (List.filter (names_object name) u); [done | simpl; lia].
Qed.

Lemma bucket_of_elem name u us :
  u ∈ us -> (0 < hits name u)%nat -> u ∈ bucket_of name us.
Proof.
  intros Hu Hh. induction us as [|v us IH]; [by apply not_elem_of_nil in Hu|].
  simpl. apply elem_of_app. apply elem_of_cons in Hu as [<-|Hu].
  - left. apply elem_of_replicate. split; [done | lia].
  - right. by apply IH.
Qed.

(** X22.  The index is complete and exact: every unit of the returned
    list is in the bucket of each of its object names, and a unit is in
    the bucket of a name only if one of its object lines carries that
    name. *)
Theorem load_foon_index_complete
    (lines : list string) (us : list Unit) (idx : gmap string (list Unit)) :
  Parser.load_foon lines = Ret (us, idx) ->
  (forall u name, u ∈ us -> name ∈ object_names u ->
     exists bucket, idx !! name = Some bucket /\ u ∈ bucket)
  /\ (forall name bucket u, idx !! name = Some bucket -> u ∈ bucket ->
        name ∈ object_names u).
Proof.
  intros Hload.
  pose proof (load_foon_returns_well_formed _ _ Hload) as Hwf.
  destruct (load_foon_run lines Hwf) as (front & cur & idx' & Hload' & Hsegs & Hidx).
  rewrite Hload in Hload'. injection Hload' as -> ->.
  split.
  - intros u name Hu Hn.
    assert (Hg : u ∈ groups (normalize <$> lines)).
    { unfold groups. rewrite <- drop_empty_segs, <- Hsegs, drop_empty_app.
      apply elem_of_app. by left. }
    pose proof (bucket_of_elem name u _ Hg (hits_of_object_name _ _ Hn)) as Hb.
    rewrite Hidx.
    destruct (bucket_of name (groups (normalize <$> lines))) as [|b bs];
      [by apply not_elem_of_nil in Hb|].
    by eexists.
  - intros name bucket u Hb Hu.
    destruct (load_foon_bucket_elems _ _ _ _ _ Hload Hb) as [_ Hall].
    rewrite Forall_forall in Hall. destruct (Hall u Hu) as [_ Hh].
    destruct (hits_positive name u Hh) as (line & Hl & Ho & Hn).
    apply elem_of_object_names. by exists line.
Qed.

Lemma load_foon_index_complete_witness :
  exists bucket, Recipe.index !! "knife" = Some bucket /\ Recipe.with_knife ∈ bucket.
Proof.
  destruct (load_foon_index_complete _ _ _ recipe_loads) as [H _].
  apply (H Recipe.with_knife "knife").
  - apply list_elem_of_here.
  - vm_compute. apply list_elem_of_further, list_elem_of_here.
Defined.
